(** * The daily crossword puzzle endpoint: generation, normalization, caching

    A shallow embedding of the four variants of the Next.js API route
    [handler] found in the repository:

    - [src/pages/api/handler.ts], first file: in-memory cache, [sanitizeJSON],
      input shape [{theme, words: [string], clues: {word: clue}}];
    - [src/pages/api/handler.ts], second file: Vercel Blob storage, no memory
      cache, same input shape;
    - [src/pages/api/handler.ts], third file: in-memory cache, no
      sanitization, input shape [{theme, words: [{word, clue}]}];
    - [src/unnamed/part_000]: as the third, with CORS headers, an OPTIONS
      preflight branch and error details in the failure body.

    JavaScript strings are modelled by [string] restricted to ASCII code
    units; JSON values by the inductive [json]; exceptions by the [result]
    monad; module-level variables by an explicit state record; calls to
    external services by oracles (their answers) and a trace of the calls
    that the handler performed. *)

From Stdlib Require Import String Ascii List ZArith Lia Bool Arith.
From Stdlib Require Import Numbers.DecimalString.
Import ListNotations.
Open Scope string_scope.

(* ================================================================== *)
(** * Part I: definitions *)
(* ================================================================== *)

(** ** JavaScript string primitives (ASCII code units) *)

Module JsString.

(** [String.prototype.trim] removes white space and line terminators; in the
    ASCII range these are TAB, LF, VT, FF, CR and SPACE. *)
Definition is_whitespace (c : ascii) : bool :=
  let n := nat_of_ascii c in
  ((9 <=? n)%nat && (n <=? 13)%nat) || (n =? 32)%nat.

Fixpoint all_whitespace (s : string) : bool :=
  match s with
  | EmptyString => true
  | String c r => is_whitespace c && all_whitespace r
  end.

(** [toUpperCase] on one ASCII code unit: a..z go to A..Z. *)
Definition upper_char (c : ascii) : ascii :=
  let n := nat_of_ascii c in
  if (97 <=? n)%nat && (n <=? 122)%nat then ascii_of_nat (n - 32) else c.

Fixpoint toUpperCase (s : string) : string :=
  match s with
  | EmptyString => EmptyString
  | String c r => String (upper_char c) (toUpperCase r)
  end.

Fixpoint trimStart (s : string) : string :=
  match s with
  | EmptyString => EmptyString
  | String c r => if is_whitespace c then trimStart r else s
  end.

Fixpoint trimEnd (s : string) : string :=
  match s with
  | EmptyString => EmptyString
  | String c r =>
      match trimEnd r with
      | EmptyString => if is_whitespace c then EmptyString else String c EmptyString
      | r' => String c r'
      end
  end.

Definition trim (s : string) : string := trimEnd (trimStart s).

Fixpoint drop (n : nat) (s : string) : string :=
  match n, s with
  | O, _ => s
  | S k, EmptyString => EmptyString
  | S k, String _ r => drop k r
  end.

(** [s.replace(/pat/g, rep)] for a pattern [pat] made of literal characters
    (and not empty): the matches are found from left to right and do not
    overlap; the scan resumes after each match.  [skip] counts the
    characters of the current match that are still to be passed over. *)
Fixpoint replace_from (pat rep : string) (skip : nat) (s : string) : string :=
  match s with
  | EmptyString => EmptyString
  | String c r =>
      match skip with
      | S k => replace_from pat rep k r
      | O =>
          if prefix pat s
          then rep ++ replace_from pat rep (String.length pat - 1) r
          else String c (replace_from pat rep 0 r)
      end
  end.

Definition replaceAll (pat rep s : string) : string := replace_from pat rep 0 s.

(** [s.includes(pat)]. *)
Fixpoint includes (pat s : string) : bool :=
  prefix pat s ||
  match s with
  | EmptyString => false
  | String _ r => includes pat r
  end.

End JsString.
Import JsString.

(** ** [sanitizeJSON] (first and second file of handler.ts) *)

Definition sanitizeJSON (response : string) : string :=
  trim (replaceAll "```" "" (replaceAll "```json" "" response)).

(** The text wrapped in code-fence markers: optional white space [w1], the
    opening marker with a language tag [tag], white space [w2], the text,
    white space [w3], the closing marker and white space [w4]. *)
Definition fenced (w1 tag w2 t w3 w4 : string) : string :=
  w1 ++ "```" ++ tag ++ w2 ++ t ++ w3 ++ "```" ++ w4.

(** ** JSON values and JavaScript objects *)

#[warnings="-register-all"]
Inductive json : Type :=
| JNull
| JBool (b : bool)
| JNum (lexeme : string)
| JStr (s : string)
| JArr (items : list json)
| JObj (members : list (string * json)).

(** A JavaScript value met by the handlers: a JSON value or [undefined]. *)
Definition jsvalue : Type := option json.
Definition undefined : jsvalue := None.

(** A plain object: its own properties in creation order.  (The special
    placing of integer-like keys in the enumeration order is not modelled;
    no property of this development depends on it.) *)
Definition jsobject (V : Type) : Type := list (string * V).

Fixpoint obj_get {V : Type} (k : string) (o : jsobject V) : option V :=
  match o with
  | [] => None
  | (k', v) :: r => if String.eqb k k' then Some v else obj_get k r
  end.

(** [o[k] = v]: an existing property keeps its place and takes the new
    value, a new property is added last. *)
Fixpoint obj_set {V : Type} (k : string) (v : V) (o : jsobject V) : jsobject V :=
  match o with
  | [] => [(k, v)]
  | (k', v') :: r =>
      if String.eqb k k' then (k, v) :: r else (k', v') :: obj_set k v r
  end.

Definition obj_keys {V : Type} (o : jsobject V) : list string := map fst o.

Definition Object_fromEntries {V : Type} (entries : list (string * V)) : jsobject V :=
  fold_left (fun acc e => obj_set (fst e) (snd e) acc) entries [].

(** ** Exceptions *)

Inductive js_error : Type :=
| SyntaxError                 (* thrown by JSON.parse *)
| TypeError                   (* property of null or undefined, call of a non-function *)
| Error (message : string).   (* new Error(message), and what external services throw *)

Inductive result (A : Type) : Type :=
| Ok (a : A)
| Throw (e : js_error).
Arguments Ok {A} a.
Arguments Throw {A} e.

Definition bind {A B : Type} (c : result A) (k : A -> result B) : result B :=
  match c with
  | Ok a => k a
  | Throw e => Throw e
  end.

Notation "x <- c ;; k" := (bind c (fun x => k))
  (at level 61, c at next level, right associativity).

(** [xs.map(f)] where [f] may throw: the first exception ends the loop. *)
Fixpoint array_map {A B : Type} (f : A -> result B) (xs : list A) : result (list B) :=
  match xs with
  | [] => Ok []
  | x :: r => y <- f x ;; ys <- array_map f r ;; Ok (y :: ys)
  end.

(** [xs.reduce(f, init)] where [f] may throw. *)
Fixpoint array_reduce {A B : Type} (f : B -> A -> result B) (xs : list A) (acc : B)
  : result B :=
  match xs with
  | [] => Ok acc
  | x :: r => acc' <- f acc x ;; array_reduce f r acc'
  end.

(** [v.name] for the property names the handlers read ([theme], [words],
    [clues], [word], [clue]): reading from [null] or [undefined] throws; the
    primitives and arrays have no property of these names. *)
Definition get_property (v : jsvalue) (name : string) : result jsvalue :=
  match v with
  | None => Throw TypeError
  | Some JNull => Throw TypeError
  | Some (JObj ms) => Ok (obj_get name ms)
  | Some _ => Ok undefined
  end.

(** [v.toUpperCase()]: only strings have the method. *)
Definition call_toUpperCase (v : jsvalue) : result string :=
  match v with
  | Some (JStr s) => Ok (toUpperCase s)
  | _ => Throw TypeError
  end.

(** [v.map(f)] and [v.reduce(f, init)]: only arrays have the methods (a
    property [map] of a parsed object is never a function). *)
Definition call_map {B : Type} (v : jsvalue) (f : json -> result B) : result (list B) :=
  match v with
  | Some (JArr items) => array_map f items
  | _ => Throw TypeError
  end.

Definition call_reduce {B : Type} (v : jsvalue) (f : B -> json -> result B) (init : B)
  : result B :=
  match v with
  | Some (JArr items) => array_reduce f items init
  | _ => Throw TypeError
  end.

Definition index_key (i : nat) : string := NilZero.string_of_uint (Nat.to_uint i).

Fixpoint indexed_from {A : Type} (i : nat) (xs : list A) : list (string * A) :=
  match xs with
  | [] => []
  | x :: r => (index_key i, x) :: indexed_from (S i) r
  end.

Fixpoint chars (s : string) : list json :=
  match s with
  | EmptyString => []
  | String c r => JStr (String c EmptyString) :: chars r
  end.

(** [Object.entries(v)]: throws on [null] and [undefined]; the members of an
    object; the indexed elements of an array or of a string; nothing for a
    number or a boolean. *)
Definition Object_entries (v : jsvalue) : result (list (string * json)) :=
  match v with
  | None => Throw TypeError
  | Some JNull => Throw TypeError
  | Some (JObj ms) => Ok ms
  | Some (JArr items) => Ok (indexed_from 0 items)
  | Some (JStr s) => Ok (indexed_from 0 (chars s))
  | Some (JNum _) => Ok []
  | Some (JBool _) => Ok []
  end.

(** ** The cached record *)

(** The non-null case of the TypeScript type [CachedResponse]; the fields
    hold what the code stores there at run time. *)
Record CachedResponse : Type := mkCachedResponse {
  theme : jsvalue;
  words : list jsvalue;
  clues : jsobject jsvalue
}.

(** ** Building the record from the parsed output *)

(** handler.ts, first and second file ("Enforce output format"):
    [{ theme: parsedResult.theme,
       words: parsedResult.words.map(word => word.toUpperCase()),
       clues: Object.fromEntries(Object.entries(parsedResult.clues).map(
                ([word, clue]) => [word.toUpperCase(), clue])) }]. *)
Definition formattedResponse (parsedResult : json) : result CachedResponse :=
  th <- get_property (Some parsedResult) "theme" ;;
  ws <- get_property (Some parsedResult) "words" ;;
  ws' <- call_map ws (fun word => call_toUpperCase (Some word)) ;;
  cl <- get_property (Some parsedResult) "clues" ;;
  entries <- Object_entries cl ;;
  Ok {| theme := th;
        words := map (fun w => Some (JStr w)) ws';
        clues := Object_fromEntries
                   (map (fun e => (toUpperCase (fst e), Some (snd e))) entries) |}.

(** handler.ts, third file, and part_000:
    [{ theme: rawResult.theme,
       words: rawResult.words.map(entry => entry.word),
       clues: rawResult.words.reduce((acc, entry) => {
                acc[entry.word.toUpperCase()] = entry.clue; return acc; }, {}) }].
    [entry_word] and [add_clue] are the two callbacks. *)
Definition entry_word (entry : json) : result jsvalue :=
  get_property (Some entry) "word".

Definition add_clue (acc : jsobject jsvalue) (entry : json) : result (jsobject jsvalue) :=
  w <- get_property (Some entry) "word" ;;
  k <- call_toUpperCase w ;;
  c <- get_property (Some entry) "clue" ;;
  Ok (obj_set k c acc).

Definition entriesResponse (rawResult : json) : result CachedResponse :=
  th <- get_property (Some rawResult) "theme" ;;
  ws <- get_property (Some rawResult) "words" ;;
  ws' <- call_map ws entry_word ;;
  ws2 <- get_property (Some rawResult) "words" ;;
  cl <- call_reduce ws2 add_clue [] ;;
  Ok {| theme := th; words := ws'; clues := cl |}.

(** ** The invariant of the specification, as decidable checks *)

Fixpoint count_key {V : Type} (k : string) (o : jsobject V) : nat :=
  match o with
  | [] => 0
  | (k', _) :: r => (if String.eqb k k' then 1 else 0) + count_key k r
  end.

Definition is_word (k : string) (w : jsvalue) : bool :=
  match w with
  | Some (JStr s) => String.eqb k s
  | _ => false
  end.

(** "Every word has exactly one clue, every clue key is a word." *)
Definition words_clues_ok (p : CachedResponse) : bool :=
  forallb (fun w => match w with
                    | Some (JStr s) => (count_key s (clues p) =? 1)%nat
                    | _ => false
                    end) (words p)
  && forallb (fun k => existsb (is_word k) (words p)) (obj_keys (clues p)).

(** Modelled from the spec: the canonical word list of section 4.4, step 4
    ("uppercased, order-preserving, duplicate-removed"); the first
    occurrence of a word is the one that is kept. *)
Fixpoint remove_duplicates (seen : list string) (ws : list string) : list string :=
  match ws with
  | [] => []
  | w :: r =>
      if existsb (String.eqb w) seen then remove_duplicates seen r
      else w :: remove_duplicates (w :: seen) r
  end.

Definition spec_canonical_words (ws : list string) : list string :=
  remove_duplicates [] (map toUpperCase ws).

(** ** A reader of JSON text

    [JSON.parse] is a primitive of the language; the handlers below take it
    as a parameter.  [JsonText.parse] is a reader of the JSON grammar (ECMA-404)
    over ASCII text, used to run the handlers on concrete texts: [None]
    stands for the [SyntaxError] of [JSON.parse].  A [\u] escape above the
    ASCII range is outside of the string model and is refused. *)

Module JsonText.

Definition dquote : ascii := "034"%char.

Definition is_json_whitespace (c : ascii) : bool :=
  let n := nat_of_ascii c in
  (n =? 9)%nat || (n =? 10)%nat || (n =? 13)%nat || (n =? 32)%nat.

Fixpoint skip_whitespace (s : string) : string :=
  match s with
  | EmptyString => EmptyString
  | String c r => if is_json_whitespace c then skip_whitespace r else s
  end.

Definition is_digit (c : ascii) : bool :=
  let n := nat_of_ascii c in (48 <=? n)%nat && (n <=? 57)%nat.

Definition hex_value (c : ascii) : option nat :=
  let n := nat_of_ascii c in
  if (48 <=? n)%nat && (n <=? 57)%nat then Some (n - 48)
  else if (65 <=? n)%nat && (n <=? 70)%nat then Some (n - 55)
  else if (97 <=? n)%nat && (n <=? 102)%nat then Some (n - 87)
  else None.

Definition simple_escape (c : ascii) : option ascii :=
  if Ascii.eqb c dquote then Some dquote
  else if Ascii.eqb c "\" then Some "\"%char
  else if Ascii.eqb c "/" then Some "/"%char
  else if Ascii.eqb c "b" then Some "008"%char
  else if Ascii.eqb c "f" then Some "012"%char
  else if Ascii.eqb c "n" then Some "010"%char
  else if Ascii.eqb c "r" then Some "013"%char
  else if Ascii.eqb c "t" then Some "009"%char
  else None.

Definition cons_char (c : ascii) (p : option (string * string)) : option (string * string) :=
  match p with
  | Some (t, rest) => Some (String c t, rest)
  | None => None
  end.

(** The characters of a string literal after its opening quote, up to the
    closing quote; the decoded string and the rest of the text. *)
Fixpoint string_body (s : string) : option (string * string) :=
  match s with
  | EmptyString => None
  | String c r =>
      if Ascii.eqb c dquote then Some (EmptyString, r)
      else if Ascii.eqb c "\" then
        match r with
        | EmptyString => None
        | String e r1 =>
            if Ascii.eqb e "u" then
              match r1 with
              | String h1 (String h2 (String h3 (String h4 r2))) =>
                  match hex_value h1, hex_value h2, hex_value h3, hex_value h4 with
                  | Some a, Some b, Some c', Some d =>
                      let n := ((a * 16 + b) * 16 + c') * 16 + d in
                      if (n <? 128)%nat then cons_char (ascii_of_nat n) (string_body r2)
                      else None
                  | _, _, _, _ => None
                  end
              | _ => None
              end
            else
              match simple_escape e with
              | Some ch => cons_char ch (string_body r1)
              | None => None
              end
        end
      else if (nat_of_ascii c <? 32)%nat then None
      else cons_char c (string_body r)
  end.

Fixpoint digits (s : string) : string * string :=
  match s with
  | EmptyString => (EmptyString, EmptyString)
  | String c r =>
      if is_digit c then let (d, rest) := digits r in (String c d, rest)
      else (EmptyString, s)
  end.

Definition integer_part (s : string) : option (string * string) :=
  match s with
  | String c r =>
      if Ascii.eqb c "0" then Some ("0", r)
      else if is_digit c then Some (digits s)
      else None
  | EmptyString => None
  end.

Definition fraction_part (s : string) : option (string * string) :=
  match s with
  | String c r =>
      if Ascii.eqb c "." then
        match digits r with
        | (EmptyString, _) => None
        | (d, rest) => Some (String c d, rest)
        end
      else Some (EmptyString, s)
  | EmptyString => Some (EmptyString, s)
  end.

Definition exponent_part (s : string) : option (string * string) :=
  match s with
  | String c r =>
      if Ascii.eqb c "e" || Ascii.eqb c "E" then
        let (sign, r1) :=
          match r with
          | String c1 r' =>
              if Ascii.eqb c1 "+" || Ascii.eqb c1 "-"
              then (String c1 EmptyString, r') else (EmptyString, r)
          | EmptyString => (EmptyString, r)
          end in
        match digits r1 with
        | (EmptyString, _) => None
        | (d, rest) => Some (String c (sign ++ d), rest)
        end
      else Some (EmptyString, s)
  | EmptyString => Some (EmptyString, s)
  end.

Definition number (s : string) : option (json * string) :=
  let (sign, s1) :=
    match s with
    | String c r => if Ascii.eqb c "-" then ("-", r) else (EmptyString, s)
    | EmptyString => (EmptyString, s)
    end in
  match integer_part s1 with
  | None => None
  | Some (i, s2) =>
      match fraction_part s2 with
      | None => None
      | Some (f, s3) =>
          match exponent_part s3 with
          | None => None
          | Some (e, s4) => Some (JNum (sign ++ i ++ f ++ e), s4)
          end
      end
  end.

Fixpoint value (fuel : nat) (s : string) : option (json * string) :=
  match fuel with
  | O => None
  | S f =>
      match skip_whitespace s with
      | EmptyString => None
      | String c r as s' =>
          if Ascii.eqb c "{" then
            match skip_whitespace r with
            | String "}" r' => Some (JObj [], r')
            | _ => members f r []
            end
          else if Ascii.eqb c "[" then
            match skip_whitespace r with
            | String "]" r' => Some (JArr [], r')
            | _ => elements f r []
            end
          else if Ascii.eqb c dquote then
            match string_body r with
            | Some (t, rest) => Some (JStr t, rest)
            | None => None
            end
          else if prefix "true" s' then Some (JBool true, drop 4 s')
          else if prefix "false" s' then Some (JBool false, drop 5 s')
          else if prefix "null" s' then Some (JNull, drop 4 s')
          else number s'
      end
  end
with elements (fuel : nat) (s : string) (acc : list json) : option (json * string) :=
  match fuel with
  | O => None
  | S f =>
      match value f s with
      | None => None
      | Some (v, r) =>
          match skip_whitespace r with
          | String "," r' => elements f r' (acc ++ [v])%list
          | String "]" r' => Some (JArr (acc ++ [v])%list, r')
          | _ => None
          end
      end
  end
with members (fuel : nat) (s : string) (acc : jsobject json) : option (json * string) :=
  match fuel with
  | O => None
  | S f =>
      match skip_whitespace s with
      | String c r =>
          if Ascii.eqb c dquote then
            match string_body r with
            | None => None
            | Some (k, r1) =>
                match skip_whitespace r1 with
                | String ":" r2 =>
                    match value f r2 with
                    | None => None
                    | Some (v, r3) =>
                        match skip_whitespace r3 with
                        | String "," r4 => members f r4 (obj_set k v acc)
                        | String "}" r4 => Some (JObj (obj_set k v acc), r4)
                        | _ => None
                        end
                    end
                | _ => None
                end
            end
          else None
      | EmptyString => None
      end
  end.

(** The whole text must be one value, white space apart. *)
Definition parse (text : string) : option json :=
  match value (2 * String.length text + 2) text with
  | Some (v, rest) =>
      match skip_whitespace rest with
      | EmptyString => Some v
      | _ => None
      end
  | None => None
  end.

(** JSON text written with apostrophes in the place of the double quotes. *)
Fixpoint text (s : string) : string :=
  match s with
  | EmptyString => EmptyString
  | String c r => String (if Ascii.eqb c "'" then dquote else c) (text r)
  end.

End JsonText.

(** ** The handlers *)

(** A [Date] is its time value (milliseconds since the epoch). *)
Definition Date : Type := Z.

(** The module-level variables [cachedResponse] and [lastFetched]; [None]
    is [null]. *)
Record module_state : Type := mkState {
  cachedResponse : option CachedResponse;
  lastFetched : option Date
}.

Definition initial_state : module_state :=
  {| cachedResponse := None; lastFetched := None |}.

Inductive response_body : Type :=
| NoBody                                                (* [.end()] *)
| PuzzleBody (p : CachedResponse)                       (* [.json(record)] *)
| ValueBody (v : json)                                  (* [.json(puzzleData)] *)
| ErrorBody (error : string) (details : option js_error).

Record response : Type := mkResponse {
  headers : list (string * string);
  status : Z;
  body : response_body
}.

(** The calls to external services that a handler execution performs. *)
Inductive call : Type :=
| CallGeneration                                  (* openai.chat.completions.create *)
| CallList (prefix : string)                      (* list({ prefix }) *)
| CallFetch (url : string)                        (* fetch(url) *)
| CallPut (path : string) (content : CachedResponse).   (* put(path, JSON.stringify(content), ...) *)

Definition is_generation (c : call) : bool :=
  match c with CallGeneration => true | _ => false end.
Definition is_durable_read (c : call) : bool :=
  match c with CallFetch _ => true | _ => false end.
Definition is_durable_write (c : call) : bool :=
  match c with CallPut _ _ => true | _ => false end.
Definition is_durable (c : call) : bool :=
  match c with CallGeneration => false | _ => true end.

Definition count_calls (f : call -> bool) (t : list call) : nat :=
  List.length (filter f t).

Definition cors_headers : list (string * string) :=
  [("Access-Control-Allow-Origin", "*");
   ("Access-Control-Allow-Methods", "GET,OPTIONS");
   ("Access-Control-Allow-Headers", "Content-Type")].

Record blob : Type := mkBlob { pathname : string; url : string }.

(** What [fetch] resolves to: [ok], and the text that [.json()] parses. *)
Record fetch_response : Type := mkFetch {
  ok : bool;
  fetch_status : Z;
  fetch_text : string
}.

(** The answers of the external services to the blob variant: each call
    either resolves or rejects.  [completion] is, here and below, the
    outcome of [completion.choices[0]?.message?.content] after the awaited
    generation call: [Throw] when the call rejects, [Ok None] when there is
    no content. *)
Record blob_services : Type := mkServices {
  list_blobs : string -> result (list blob);
  fetch_blob : string -> result fetch_response;
  completion_of : result (option string);
  put_blob : string -> CachedResponse -> result blob
}.

Section Handlers.

(** Primitives of the run-time environment: [JSON.parse] ([None] is its
    [SyntaxError]), [Date.prototype.toDateString] (which depends on the
    time zone of the server) and [Date.prototype.toISOString]. *)
Variable JSON_parse : string -> option json.
Variable toDateString : Date -> string.
Variable toISOString : Date -> string.

Definition JSON_parse_or_throw (text : string) : result json :=
  match JSON_parse text with
  | Some v => Ok v
  | None => Throw SyntaxError
  end.

(** [cachedResponse && lastFetched &&
     now.toDateString() === lastFetched.toDateString()]. *)
Definition memory_hit (st : module_state) (now : Date) : option CachedResponse :=
  match cachedResponse st, lastFetched st with
  | Some c, Some d =>
      if String.eqb (toDateString now) (toDateString d) then Some c else None
  | _, _ => None
  end.

(** The normalizer of the first and second file: sanitize, parse, build. *)
Definition normalize (rawContent : string) : result CachedResponse :=
  let sanitizedContent := sanitizeJSON rawContent in
  parsedResult <- JSON_parse_or_throw sanitizedContent ;;
  formattedResponse parsedResult.

(** The body of [try] of the first file, after the awaited call:
    [rawContent = completion.choices[0]?.message?.content || ""]. *)
Definition generate_sanitized (completion : result (option string))
  : result CachedResponse :=
  content <- completion ;;
  let rawContent := match content with Some s => s | None => "" end in
  normalize rawContent.

(** The body of [try] of the third file and of part_000:
    [if (!content) throw new Error("No content returned by OpenAI API")],
    then [JSON.parse(content)] without sanitization. *)
Definition generate_entries (completion : result (option string))
  : result CachedResponse :=
  content <- completion ;;
  match content with
  | None => Throw (Error "No content returned by OpenAI API")
  | Some EmptyString => Throw (Error "No content returned by OpenAI API")
  | Some text =>
      rawResult <- JSON_parse_or_throw text ;;
      entriesResponse rawResult
  end.

(** handler.ts, first file. *)
Definition handler_sanitized (st : module_state) (method : string) (now : Date)
    (completion : result (option string)) : module_state * response * list call :=
  if String.eqb method "OPTIONS" then
    (st, mkResponse cors_headers 200 NoBody, [])
  else
    match memory_hit st now with
    | Some c => (st, mkResponse cors_headers 200 (PuzzleBody c), [])
    | None =>
        match generate_sanitized completion with
        | Ok r =>
            ({| cachedResponse := Some r; lastFetched := Some now |},
             mkResponse cors_headers 200 (PuzzleBody r), [CallGeneration])
        | Throw e =>
            (st, mkResponse cors_headers 500
                   (ErrorBody "Internal Server Error" (Some e)), [CallGeneration])
        end
    end.

(** handler.ts, third file: no CORS headers, no OPTIONS branch, a fixed
    failure body. *)
Definition handler_entries (st : module_state) (now : Date)
    (completion : result (option string)) : module_state * response * list call :=
  match memory_hit st now with
  | Some c => (st, mkResponse [] 200 (PuzzleBody c), [])
  | None =>
      match generate_entries completion with
      | Ok r =>
          ({| cachedResponse := Some r; lastFetched := Some now |},
           mkResponse [] 200 (PuzzleBody r), [CallGeneration])
      | Throw e =>
          (st, mkResponse [] 500
                 (ErrorBody "Error generating crossword puzzle" None), [CallGeneration])
      end
  end.

(** part_000. *)
Definition handler_entries_cors (st : module_state) (method : string) (now : Date)
    (completion : result (option string)) : module_state * response * list call :=
  if String.eqb method "OPTIONS" then
    (st, mkResponse cors_headers 200 NoBody, [])
  else
    match memory_hit st now with
    | Some c => (st, mkResponse cors_headers 200 (PuzzleBody c), [])
    | None =>
        match generate_entries completion with
        | Ok r =>
            ({| cachedResponse := Some r; lastFetched := Some now |},
             mkResponse cors_headers 200 (PuzzleBody r), [CallGeneration])
        | Throw e =>
            (st, mkResponse cors_headers 500
                   (ErrorBody "Internal Server Error" (Some e)), [CallGeneration])
        end
    end.

(** handler.ts, second file (Vercel Blob storage); it has no module-level
    state.  [today = now.toISOString().slice(0, 10)]. *)
Definition today_of (now : Date) : string := substring 0 10 (toISOString now).
Definition puzzlePath_of (now : Date) : string :=
  "puzzle/" ++ today_of now ++ "/puzzle.json".
Definition prefix_of (now : Date) : string := "puzzle/" ++ today_of now ++ "/".

Definition internal_error (e : js_error) : response :=
  mkResponse cors_headers 500 (ErrorBody "Internal Server Error" (Some e)).

Definition handler_blob (sv : blob_services) (method : string) (now : Date)
  : response * list call :=
  if String.eqb method "OPTIONS" then
    (mkResponse cors_headers 200 NoBody, [])
  else
    let puzzlePath := puzzlePath_of now in
    match list_blobs sv (prefix_of now) with
    | Throw e => (internal_error e, [CallList (prefix_of now)])
    | Ok blobs =>
        match find (fun b => String.eqb (pathname b) puzzlePath) blobs with
        | Some existingPuzzle =>
            let t := [CallList (prefix_of now); CallFetch (url existingPuzzle)] in
            match fetch_blob sv (url existingPuzzle) with
            | Throw e => (internal_error e, t)
            | Ok puzzleResponse =>
                if negb (ok puzzleResponse) then
                  (mkResponse cors_headers 500
                     (ErrorBody "Failed to fetch puzzle from Blob" None), t)
                else
                  match JSON_parse_or_throw (fetch_text puzzleResponse) with
                  | Throw e => (internal_error e, t)
                  | Ok puzzleData =>
                      (mkResponse cors_headers 200 (ValueBody puzzleData), t)
                  end
            end
        | None =>
            let t := [CallList (prefix_of now); CallGeneration] in
            match generate_sanitized (completion_of sv) with
            | Throw e => (internal_error e, t)
            | Ok r =>
                let t' := (t ++ [CallPut puzzlePath r])%list in
                match put_blob sv puzzlePath r with
                | Throw e => (internal_error e, t')
                | Ok _ => (mkResponse cors_headers 200 (PuzzleBody r), t')
                end
            end
        end
    end.

(** The module state is consistent when [cachedResponse] and [lastFetched]
    are both [null] or both set. *)
Definition consistent (st : module_state) : Prop :=
  cachedResponse st = None <-> lastFetched st = None.

End Handlers.

(** ** Concrete environment and inputs for the scenarios *)

(** A day key for the scenarios: the number of the UTC day. *)
Definition day_number_string (d : Date) : string :=
  NilZero.string_of_int (Z.to_int (d / 86400000)%Z).

Definition newline : string := String "010"%char EmptyString.

Definition space_text : string :=
  JsonText.text "{'theme':'Space','words':['orbit','comet'],'clues':{'ORBIT':'Path around a star','COMET':'Icy body with a tail'}}".

Definition example_now : Date := 1734393600000%Z.

Definition space_puzzle : CachedResponse :=
  {| theme := Some (JStr "Space");
     words := [Some (JStr "ORBIT"); Some (JStr "COMET")];
     clues := [("ORBIT", Some (JStr "Path around a star"));
               ("COMET", Some (JStr "Icy body with a tail"))] |}.

(** A word without a clue and a clue without a word. *)
Definition mismatch_text : string :=
  JsonText.text "{'theme':'Pets','words':['cat'],'clues':{'dog':'It barks'}}".

Definition mismatch_puzzle : CachedResponse :=
  {| theme := Some (JStr "Pets");
     words := [Some (JStr "CAT")];
     clues := [("DOG", Some (JStr "It barks"))] |}.

(** A word given twice, in two letter cases. *)
Definition duplicate_text : string :=
  JsonText.text "{'theme':'Pets','words':['cat','Cat'],'clues':{'cat':'It purrs'}}".

Definition duplicate_puzzle : CachedResponse :=
  {| theme := Some (JStr "Pets");
     words := [Some (JStr "CAT"); Some (JStr "CAT")];
     clues := [("CAT", Some (JStr "It purrs"))] |}.

(** The entry-list shape. *)
Definition entries_text : string :=
  JsonText.text "{'theme':'Space','words':[{'word':'orbit','clue':'Path around a star'},{'word':'comet','clue':'Icy body with a tail'}]}".

Definition entries_puzzle : CachedResponse :=
  {| theme := Some (JStr "Space");
     words := [Some (JStr "orbit"); Some (JStr "comet")];
     clues := [("ORBIT", Some (JStr "Path around a star"));
               ("COMET", Some (JStr "Icy body with a tail"))] |}.

Definition cached_state : module_state :=
  {| cachedResponse := Some space_puzzle; lastFetched := Some example_now |}.

Definition stored_blob : blob :=
  {| pathname := puzzlePath_of day_number_string example_now;
     url := "https://store.example/puzzle.json" |}.

(** A store that holds the puzzle of the day. *)
Definition stored_services : blob_services :=
  {| list_blobs := fun _ => Ok [stored_blob];
     fetch_blob := fun _ => Ok {| ok := true; fetch_status := 200; fetch_text := space_text |};
     completion_of := Throw (Error "generation is not reached");
     put_blob := fun _ _ => Throw (Error "put is not reached") |}.

(** An empty store whose [put] rejects, and a generation that succeeds. *)
Definition failing_put_services : blob_services :=
  {| list_blobs := fun _ => Ok [];
     fetch_blob := fun _ => Throw (Error "fetch is not reached");
     completion_of := Ok (Some space_text);
     put_blob := fun _ _ => Throw (Error "Blob store unavailable") |}.

(** An empty store and a generation whose output is not JSON. *)
Definition malformed_services : blob_services :=
  {| list_blobs := fun _ => Ok [];
     fetch_blob := fun _ => Throw (Error "fetch is not reached");
     completion_of := Ok (Some "not json at all");
     put_blob := fun _ p => Ok stored_blob |}.

(** ** Further notions used to state properties of the code *)

Definition starts_with_whitespace (s : string) : bool :=
  match s with
  | EmptyString => false
  | String c _ => is_whitespace c
  end.

Fixpoint ends_with_whitespace (s : string) : bool :=
  match s with
  | EmptyString => false
  | String c EmptyString => is_whitespace c
  | String _ r => ends_with_whitespace r
  end.

(** The first file of handler.ts around its [await]: [handler_sanitized_start]
    is the code that runs before the awaited generation call ([None]: the
    call is issued and the handler is suspended); [handler_sanitized_resume]
    is the code that runs when the call settles, on the module state of that
    moment. *)
Definition handler_sanitized_start (toDateString : Date -> string)
    (st : module_state) (method : string) (now : Date) : option response :=
  if String.eqb method "OPTIONS" then
    Some (mkResponse cors_headers 200 NoBody)
  else
    match memory_hit toDateString st now with
    | Some c => Some (mkResponse cors_headers 200 (PuzzleBody c))
    | None => None
    end.

Definition handler_sanitized_resume (JSON_parse : string -> option json)
    (st : module_state) (now : Date) (completion : result (option string))
  : module_state * response :=
  match generate_sanitized JSON_parse completion with
  | Ok r =>
      ({| cachedResponse := Some r; lastFetched := Some now |},
       mkResponse cors_headers 200 (PuzzleBody r))
  | Throw e =>
      (st, mkResponse cors_headers 500 (ErrorBody "Internal Server Error" (Some e)))
  end.

(** Two entries whose words differ by letter case only. *)
Definition twice_entry : json :=
  JObj [("word", JStr "orbit"); ("clue", JStr "Path around a star")].
Definition twice_entry_again : json :=
  JObj [("word", JStr "Orbit"); ("clue", JStr "Closed trajectory")].

(** A store whose record of the day cannot be fetched. *)
Definition unreadable_services : blob_services :=
  {| list_blobs := fun _ => Ok [stored_blob];
     fetch_blob := fun _ => Ok {| ok := false; fetch_status := 503; fetch_text := "" |};
     completion_of := Ok (Some space_text);
     put_blob := fun _ _ => Ok stored_blob |}.

(** An empty store that accepts the write, and a generation that succeeds. *)
Definition empty_services : blob_services :=
  {| list_blobs := fun _ => Ok [];
     fetch_blob := fun _ => Throw (Error "fetch is not reached");
     completion_of := Ok (Some space_text);
     put_blob := fun _ _ => Ok stored_blob |}.

(* ================================================================== *)
(** * Part II: properties *)
(* ================================================================== *)

(** ** Strings: prefixes, [drop], [includes] *)

Lemma append_empty_r (s : string) : s ++ "" = s.
Proof. induction s as [|c r IH]; simpl; [reflexivity | now rewrite IH]. Qed.

Lemma append_assoc (a b c : string) : (a ++ b) ++ c = a ++ (b ++ c).
Proof. induction a as [|x r IH]; simpl; [reflexivity | now rewrite IH]. Qed.

Lemma prefix_cons (a b : ascii) (p s : string) :
  prefix (String a p) (String b s) = true <-> a = b /\ prefix p s = true.
Proof.
  simpl. destruct (ascii_dec a b) as [->|Hne].
  - tauto.
  - split; [discriminate | intros [E _]; contradiction].
Qed.

Lemma prefix_true_app (p s : string) :
  prefix p s = true -> s = p ++ drop (String.length p) s.
Proof.
  revert s. induction p as [|a p IH]; intros s H.
  - reflexivity.
  - destruct s as [|b s]; [discriminate|].
    apply prefix_cons in H as [-> H]. simpl. f_equal. now apply IH.
Qed.

Lemma prefix_app_self (p s : string) : prefix p (p ++ s) = true.
Proof.
  induction p as [|a p IH]; simpl.
  - now destruct s.
  - destruct (ascii_dec a a); [assumption | contradiction].
Qed.

Lemma prefix_app_r (p a b : string) :
  prefix p a = true -> prefix p (a ++ b) = true.
Proof.
  intros H. rewrite (prefix_true_app _ _ H), append_assoc. apply prefix_app_self.
Qed.

Lemma prefix_shorter (p q s : string) :
  prefix (p ++ q) s = true -> prefix p s = true.
Proof.
  intros H. rewrite (prefix_true_app _ _ H), append_assoc. apply prefix_app_self.
Qed.

Lemma drop_length_le (k : nat) (s : string) :
  String.length (drop k s) <= String.length s.
Proof.
  revert s. induction k as [|k IH]; intros [|c r]; simpl; try lia.
  specialize (IH r). lia.
Qed.

Lemma includes_cons (pat : string) (c : ascii) (r : string) :
  includes pat (String c r) = prefix pat (String c r) || includes pat r.
Proof. reflexivity. Qed.

Lemma includes_nil (pat : string) : includes pat "" = prefix pat "".
Proof. simpl. apply orb_false_r. Qed.

Lemma includes_app_r (pat a b : string) :
  includes pat a = true -> includes pat (a ++ b) = true.
Proof.
  induction a as [|c r IH]; intros H.
  - simpl in H. rewrite orb_false_r in H.
    destruct pat; [|discriminate]. now destruct b.
  - rewrite includes_cons in H. simpl append. rewrite includes_cons.
    apply orb_true_iff in H as [H|H]; apply orb_true_iff.
    + left. now apply (prefix_app_r pat (String c r) b).
    + right. now apply IH.
Qed.

Lemma includes_longer (p q s : string) :
  includes (p ++ q) s = true -> includes p s = true.
Proof.
  induction s as [|c r IH]; intros H.
  - rewrite includes_nil in *. now apply prefix_shorter in H.
  - rewrite includes_cons in *. apply orb_true_iff in H as [H|H]; apply orb_true_iff.
    + left. now apply prefix_shorter in H.
    + right. now apply IH.
Qed.

(** ** [trim] *)

Lemma trimStart_suffix (pat s : string) :
  includes pat (trimStart s) = true -> includes pat s = true.
Proof.
  induction s as [|c r IH]; simpl trimStart; intros H; [assumption|].
  destruct (is_whitespace c); [|assumption].
  rewrite includes_cons. apply orb_true_iff. right. now apply IH.
Qed.

Lemma trimEnd_decomp (s : string) :
  exists w, all_whitespace w = true /\ s = trimEnd s ++ w.
Proof.
  induction s as [|c r [w [Hw E]]].
  - exists "". now split.
  - simpl. destruct (trimEnd r) as [|d t] eqn:Et.
    + destruct (is_whitespace c) eqn:Hc.
      * exists (String c r). simpl in E. subst w. simpl. now rewrite Hc, Hw.
      * exists w. split; [assumption|]. simpl. now f_equal.
    + exists w. split; [assumption|]. simpl append. simpl in E. now rewrite <- E.
Qed.

Lemma trim_includes (pat s : string) :
  includes pat (trim s) = true -> includes pat s = true.
Proof.
  unfold trim. intros H. apply trimStart_suffix.
  destruct (trimEnd_decomp (trimStart s)) as [w [_ E]].
  rewrite E. now apply includes_app_r.
Qed.

(** ** [replaceAll] *)

Lemma replace_from_skip (pat rep : string) (k : nat) (s : string) :
  replace_from pat rep k s = replace_from pat rep 0 (drop k s).
Proof.
  revert k. induction s as [|c r IH]; intros [|k]; try reflexivity.
  simpl. apply IH.
Qed.

Lemma replaceAll_match (pat rep s : string) :
  pat <> "" -> prefix pat s = true ->
  replaceAll pat rep s = rep ++ replaceAll pat rep (drop (String.length pat) s).
Proof.
  intros Hp H. destruct pat as [|a p]; [contradiction|].
  destruct s as [|c r]; [discriminate|].
  unfold replaceAll. simpl replace_from. simpl in H. rewrite H.
  simpl. rewrite Nat.sub_0_r. now rewrite replace_from_skip.
Qed.

Lemma replaceAll_nomatch (pat rep : string) (c : ascii) (r : string) :
  prefix pat (String c r) = false ->
  replaceAll pat rep (String c r) = String c (replaceAll pat rep r).
Proof. intros H. unfold replaceAll. simpl replace_from. simpl in H. now rewrite H. Qed.

Lemma replaceAll_empty (pat rep : string) : replaceAll pat rep "" = "".
Proof. reflexivity. Qed.

(** ** The second replacement leaves no triple backtick *)

Lemma prefix_tick_cons (p : string) (c : ascii) (r : string) :
  c <> "`"%char -> prefix (String "`" p) (String c r) = false.
Proof.
  intros Hc. cbn [prefix]. destruct (ascii_dec "`" c) as [E|_]; [|reflexivity].
  now subst c.
Qed.

Lemma prefix_empty (s : string) : prefix "" s = true.
Proof. now destruct s. Qed.

Lemma prefix_tick_tick (p r : string) :
  prefix p r = true -> prefix (String "`" p) (String "`" r) = true.
Proof. intros H. apply prefix_cons. now split. Qed.

Lemma strip_keeps_no_tick (s : string) :
  prefix "`" s = false -> prefix "`" (replaceAll "```" "" s) = false.
Proof.
  destruct s as [|c r]; intros H; [reflexivity|].
  assert (Hc : c <> "`"%char).
  { intros ->. rewrite prefix_tick_tick in H; [discriminate | apply prefix_empty]. }
  rewrite replaceAll_nomatch by now apply prefix_tick_cons.
  now apply prefix_tick_cons.
Qed.

Lemma strip_keeps_no_two_ticks (s : string) :
  prefix "``" s = false -> prefix "``" (replaceAll "```" "" s) = false.
Proof.
  destruct s as [|c r]; intros H; [reflexivity|].
  destruct (ascii_dec c "`") as [->|Hc].
  - assert (Hr : prefix "`" r = false).
    { destruct (prefix "`" r) eqn:E; [|reflexivity].
      rewrite <- H. symmetry. now apply prefix_tick_tick. }
    assert (Hn : prefix "```" (String "`" r) = false).
    { destruct (prefix "```" (String "`" r)) eqn:E; [|reflexivity].
      apply prefix_cons in E as [_ E].
      apply (prefix_shorter "`" "`") in E. congruence. }
    rewrite replaceAll_nomatch by assumption.
    destruct (prefix "``" (String "`" (replaceAll "```" "" r))) eqn:E; [|reflexivity].
    apply prefix_cons in E as [_ E].
    now rewrite strip_keeps_no_tick in E.
  - rewrite replaceAll_nomatch by now apply prefix_tick_cons.
    now apply prefix_tick_cons.
Qed.

Lemma strip_removes_fences_bounded (n : nat) (s : string) :
  String.length s <= n -> includes "```" (replaceAll "```" "" s) = false.
Proof.
  revert s. induction n as [|n IH]; intros s Hn.
  - destruct s; [reflexivity | simpl in Hn; lia].
  - destruct s as [|c r]; [reflexivity|].
    destruct (prefix "```" (String c r)) eqn:Hp.
    + rewrite replaceAll_match by (assumption || discriminate).
      change (drop (String.length "```") (String c r)) with (drop 2 r).
      cbn [append]. apply IH.
      simpl in Hn. pose proof (drop_length_le 2 r). lia.
    + rewrite replaceAll_nomatch by assumption.
      rewrite includes_cons. apply orb_false_iff. split.
      * destruct (prefix "```" (String c (replaceAll "```" "" r))) eqn:E; [|reflexivity].
        apply prefix_cons in E as [<- E].
        rewrite strip_keeps_no_two_ticks in E; [discriminate|].
        destruct (prefix "``" r) eqn:E2; [|reflexivity].
        rewrite <- Hp. symmetry. now apply prefix_tick_tick.
      * apply IH. simpl in Hn. lia.
Qed.

Lemma strip_removes_fences (s : string) :
  includes "```" (replaceAll "```" "" s) = false.
Proof. now apply (strip_removes_fences_bounded (String.length s)). Qed.

(** C10. For every input string, the sanitized output contains no occurrence
    of the triple backtick, hence none of the triple backtick followed by
    [json], wherever the sequence stood in the input (within a clue as
    well). *)
Theorem sanitizeJSON_removes_every_fence (response : string) :
  includes "```" (sanitizeJSON response) = false
  /\ includes "```json" (sanitizeJSON response) = false.
Proof.
  assert (H : includes "```" (sanitizeJSON response) = false).
  { unfold sanitizeJSON.
    destruct (includes "```" (trim (replaceAll "```" "" (replaceAll "```json" "" response))))
      eqn:E; [|reflexivity].
    apply trim_includes in E. now rewrite strip_removes_fences in E. }
  split; [assumption|].
  destruct (includes "```json" (sanitizeJSON response)) eqn:E; [|reflexivity].
  apply (includes_longer "```" "json") in E. congruence.
Qed.

(** ** White space and the two patterns of [sanitizeJSON] *)

Lemma whitespace_not_tick (c : ascii) : is_whitespace c = true -> c <> "`"%char.
Proof. intros H ->. vm_compute in H. discriminate. Qed.

Lemma all_whitespace_cons (c : ascii) (w : string) :
  all_whitespace (String c w) = true -> is_whitespace c = true /\ all_whitespace w = true.
Proof. simpl. apply andb_true_iff. Qed.

Lemma replaceAll_through_whitespace (p rep w s : string) :
  all_whitespace w = true ->
  replaceAll (String "`" p) rep (w ++ s) = w ++ replaceAll (String "`" p) rep s.
Proof.
  induction w as [|c w IH]; intros Hw; [reflexivity|].
  apply all_whitespace_cons in Hw as [Hc Hw].
  cbn [append]. rewrite replaceAll_nomatch.
  - now rewrite IH.
  - apply prefix_tick_cons. now apply whitespace_not_tick.
Qed.

Lemma replaceAll_whitespace (p rep w : string) :
  all_whitespace w = true -> replaceAll (String "`" p) rep w = w.
Proof.
  intros Hw. rewrite <- (append_empty_r w) at 1.
  rewrite replaceAll_through_whitespace by assumption.
  rewrite replaceAll_empty. apply append_empty_r.
Qed.

Lemma drop_app_self (p s : string) : drop (String.length p) (p ++ s) = s.
Proof. induction p as [|a p IH]; [reflexivity | exact IH]. Qed.

Lemma replaceAll_at_pattern (pat s : string) :
  pat <> "" -> replaceAll pat "" (pat ++ s) = replaceAll pat "" s.
Proof.
  intros Hp. rewrite replaceAll_match by (assumption || apply prefix_app_self).
  now rewrite drop_app_self.
Qed.

(** Inversion of a prefix test that holds, one character at a time. *)
Ltac prefix_inv H :=
  repeat (apply prefix_cons in H; let E := fresh "E" in destruct H as [E H]).

Ltac refute_prefix :=
  let H := fresh "H" in
  match goal with
  | |- prefix ?p ?s = false => destruct (prefix p s) eqn:H; [exfalso | reflexivity]
  end;
  prefix_inv H;
  try discriminate;
  try (subst;
       match goal with
       | W : is_whitespace _ = true |- _ => vm_compute in W; discriminate W
       end).

(** The opening marker without a language tag, followed by white space, is
    left in place by the first replacement. *)
Lemma first_pass_keeps_bare_marker (c : ascii) (s : string) :
  is_whitespace c = true ->
  replaceAll "```json" "" ("```" ++ String c s)
  = "```" ++ String c (replaceAll "```json" "" s).
Proof.
  intros Hc. cbn [append].
  rewrite replaceAll_nomatch by refute_prefix.
  rewrite replaceAll_nomatch by refute_prefix.
  rewrite replaceAll_nomatch by refute_prefix.
  rewrite replaceAll_nomatch by refute_prefix.
  reflexivity.
Qed.

(** A pattern that cannot begin in [t] and end in [tail] is replaced in
    [t ++ tail] as in [t] and in [tail] separately. *)
Lemma prefix_app_no_straddle (tail : string) (q t : string) :
  (forall k, k < String.length q -> prefix (drop k q) tail = false) ->
  prefix q (t ++ tail) = true -> prefix q t = true.
Proof.
  revert t. induction q as [|a q IH]; intros t Hq H.
  - apply prefix_empty.
  - destruct t as [|b t].
    + cbn [append] in H. specialize (Hq 0). cbn [drop] in Hq.
      rewrite Hq in H; [discriminate | simpl; lia].
    + cbn [append] in H. apply prefix_cons in H as [<- H].
      apply prefix_cons. split; [reflexivity|].
      apply IH; [|assumption].
      intros k Hk. apply (Hq (S k)). simpl. lia.
Qed.

Lemma replaceAll_app_bounded (pat tail : string) (n : nat) (t : string) :
  pat <> "" ->
  (forall k, k < String.length pat -> prefix (drop k pat) tail = false) ->
  String.length t <= n ->
  replaceAll pat "" (t ++ tail) = replaceAll pat "" t ++ replaceAll pat "" tail.
Proof.
  intros Hp Hq. revert t. induction n as [|n IH]; intros t Hn.
  - destruct t; [reflexivity | simpl in Hn; lia].
  - destruct t as [|c r]; [reflexivity|].
    destruct (prefix pat (String c r)) eqn:Hm.
    + rewrite (prefix_true_app _ _ Hm), append_assoc.
      rewrite !replaceAll_at_pattern by assumption.
      apply IH. destruct pat as [|a p]; [contradiction|].
      cbn [String.length drop]. pose proof (drop_length_le (String.length p) r).
      simpl in Hn. lia.
    + assert (Hm' : prefix pat (String c r ++ tail) = false).
      { destruct (prefix pat (String c r ++ tail)) eqn:E; [|reflexivity].
        apply prefix_app_no_straddle in E; [congruence | assumption]. }
      cbn [append] in *. rewrite !replaceAll_nomatch by assumption.
      cbn [append]. f_equal. apply IH. simpl in Hn. lia.
Qed.

Lemma replaceAll_app (pat tail t : string) :
  pat <> "" ->
  (forall k, k < String.length pat -> prefix (drop k pat) tail = false) ->
  replaceAll pat "" (t ++ tail) = replaceAll pat "" t ++ replaceAll pat "" tail.
Proof. intros Hp Hq. now apply (replaceAll_app_bounded pat tail (String.length t)). Qed.

(** The closing marker, with white space around it. *)
Lemma first_pass_closing_alone (w3 w4 : string) :
  all_whitespace w3 = true -> all_whitespace w4 = true ->
  replaceAll "```json" "" (w3 ++ "```" ++ w4) = w3 ++ "```" ++ w4.
Proof.
  intros H3 H4. rewrite replaceAll_through_whitespace by assumption. f_equal.
  destruct w4 as [|c w4]; [reflexivity|].
  apply all_whitespace_cons in H4 as [Hc H4].
  rewrite first_pass_keeps_bare_marker by assumption.
  now rewrite replaceAll_whitespace.
Qed.

Lemma closing_refuses_json (w3 w4 : string) (k : nat) :
  all_whitespace w3 = true -> all_whitespace w4 = true ->
  k < String.length "```json" ->
  prefix (drop k "```json") (w3 ++ "```" ++ w4) = false.
Proof.
  intros H3 H4 Hk.
  destruct w3 as [|c w3]; [|apply all_whitespace_cons in H3 as [Hc H3]];
    (destruct w4 as [|d w4]; [|apply all_whitespace_cons in H4 as [Hd H4]]);
    cbn [append];
    do 7 (destruct k as [|k]; [cbn [drop]; refute_prefix|]);
    simpl in Hk; lia.
Qed.

Lemma first_pass_closing (t w3 w4 : string) :
  all_whitespace w3 = true -> all_whitespace w4 = true ->
  replaceAll "```json" "" (t ++ w3 ++ "```" ++ w4)
  = replaceAll "```json" "" t ++ w3 ++ "```" ++ w4.
Proof.
  intros H3 H4. rewrite replaceAll_app.
  - now rewrite first_pass_closing_alone.
  - discriminate.
  - intros k Hk. now apply closing_refuses_json.
Qed.

Lemma closing_refuses_fence (c : ascii) (w3 w4 : string) (k : nat) :
  is_whitespace c = true ->
  k < String.length "```" ->
  prefix (drop k "```") (String c w3 ++ "```" ++ w4) = false.
Proof.
  intros Hc Hk. cbn [append].
  do 3 (destruct k as [|k]; [cbn [drop]; refute_prefix|]).
  simpl in Hk; lia.
Qed.

Lemma second_pass_marker_whitespace (w4 : string) :
  all_whitespace w4 = true -> replaceAll "```" "" ("```" ++ w4) = w4.
Proof.
  intros H4. rewrite replaceAll_at_pattern by discriminate.
  now apply replaceAll_whitespace.
Qed.

(** The closing marker directly after the text: the backticks that end the
    text and those of the marker form one run. *)
Lemma second_pass_adjacent_bounded (n : nat) (u w4 : string) :
  all_whitespace w4 = true -> String.length u <= n ->
  replaceAll "```" "" (u ++ "```" ++ w4) = replaceAll "```" "" u ++ w4.
Proof.
  intros H4. revert u. induction n as [|n IH]; intros u Hn.
  - destruct u; [|simpl in Hn; lia]. now apply second_pass_marker_whitespace.
  - destruct u as [|c r]; [now apply second_pass_marker_whitespace|].
    destruct (prefix "```" (String c r)) eqn:Hu.
    + rewrite (prefix_true_app _ _ Hu), append_assoc.
      rewrite !replaceAll_at_pattern by discriminate.
      apply IH. change (drop (String.length "```") (String c r)) with (drop 2 r).
      pose proof (drop_length_le 2 r). simpl in Hn. lia.
    + destruct (prefix "```" (String c r ++ "```" ++ w4)) eqn:Hs.
      * (* the match begins in the text and ends in the marker *)
        assert (Hshape : String c r = "`" \/ String c r = "``").
        { cbn [append] in Hs. apply prefix_cons in Hs as [<- Hs].
          destruct r as [|d r]; [now left|].
          cbn [append] in Hs. apply prefix_cons in Hs as [<- Hs].
          destruct r as [|e r]; [now right|].
          cbn [append] in Hs. apply prefix_cons in Hs as [<- Hs].
          rewrite prefix_tick_tick in Hu; [discriminate|].
          apply prefix_tick_tick. apply prefix_tick_tick. apply prefix_empty. }
        destruct Hshape as [-> | ->].
        -- change ("`" ++ "```" ++ w4) with ("```" ++ "`" ++ w4).
           rewrite replaceAll_at_pattern by discriminate.
           change ("`" ++ w4) with (String "`" w4).
           destruct w4 as [|d w4]; [reflexivity|].
           apply all_whitespace_cons in H4 as [Hd H4'].
           rewrite replaceAll_nomatch by refute_prefix.
           rewrite replaceAll_whitespace; [reflexivity|].
           simpl. now rewrite Hd, H4'.
        -- change ("``" ++ "```" ++ w4) with ("```" ++ "``" ++ w4).
           rewrite replaceAll_at_pattern by discriminate.
           change ("``" ++ w4) with (String "`" (String "`" w4)).
           destruct w4 as [|d w4]; [reflexivity|].
           apply all_whitespace_cons in H4 as [Hd H4'].
           rewrite replaceAll_nomatch by refute_prefix.
           rewrite replaceAll_nomatch by refute_prefix.
           rewrite replaceAll_whitespace; [reflexivity|].
           simpl. now rewrite Hd, H4'.
      * cbn [append] in *. rewrite !replaceAll_nomatch by assumption.
        cbn [append]. f_equal. apply IH. simpl in Hn. lia.
Qed.

Lemma second_pass_closing (u w3 w4 : string) :
  all_whitespace w3 = true -> all_whitespace w4 = true ->
  replaceAll "```" "" (u ++ w3 ++ "```" ++ w4) = replaceAll "```" "" u ++ w3 ++ w4.
Proof.
  intros H3 H4. destruct w3 as [|c w3].
  - cbn [append]. now apply (second_pass_adjacent_bounded (String.length u)).
  - pose proof H3 as H3'. apply all_whitespace_cons in H3' as [Hc _].
    rewrite replaceAll_app.
    + rewrite replaceAll_through_whitespace by assumption.
      now rewrite second_pass_marker_whitespace.
    + discriminate.
    + intros k Hk. now apply closing_refuses_fence.
Qed.

(** ** [trim] and surrounding white space *)

Lemma trimStart_whitespace_app (w s : string) :
  all_whitespace w = true -> trimStart (w ++ s) = trimStart s.
Proof.
  induction w as [|c w IH]; intros Hw; [reflexivity|].
  apply all_whitespace_cons in Hw as [Hc Hw]. cbn [append trimStart].
  rewrite Hc. now apply IH.
Qed.

Lemma trimEnd_whitespace (w : string) : all_whitespace w = true -> trimEnd w = "".
Proof.
  induction w as [|c w IH]; intros Hw; [reflexivity|].
  apply all_whitespace_cons in Hw as [Hc Hw]. cbn [trimEnd].
  now rewrite (IH Hw), Hc.
Qed.

Lemma trimEnd_app_whitespace (s w : string) :
  all_whitespace w = true -> trimEnd (s ++ w) = trimEnd s.
Proof.
  intros Hw. induction s as [|c r IH].
  - now apply trimEnd_whitespace.
  - cbn [append trimEnd]. now rewrite IH.
Qed.

Lemma trim_app_whitespace (s w : string) :
  all_whitespace w = true -> trim (s ++ w) = trim s.
Proof.
  intros Hw. unfold trim. induction s as [|c r IH].
  - cbn [append trimStart trimEnd].
    rewrite <- (append_empty_r w), trimStart_whitespace_app by assumption.
    reflexivity.
  - cbn [append trimStart]. destruct (is_whitespace c); [exact IH|].
    now apply (trimEnd_app_whitespace (String c r)).
Qed.

Lemma trim_whitespace_app (w s : string) :
  all_whitespace w = true -> trim (w ++ s) = trim s.
Proof. intros Hw. unfold trim. now rewrite trimStart_whitespace_app. Qed.

(** ** Code fences around the generated text *)

Lemma first_pass_fenced_json (w1 w2 t w3 w4 : string) :
  all_whitespace w1 = true -> all_whitespace w2 = true ->
  all_whitespace w3 = true -> all_whitespace w4 = true ->
  replaceAll "```json" "" (fenced w1 "json" w2 t w3 w4)
  = w1 ++ w2 ++ replaceAll "```json" "" t ++ w3 ++ "```" ++ w4.
Proof.
  intros H1 H2 H3 H4. unfold fenced.
  rewrite replaceAll_through_whitespace by assumption.
  change ("```" ++ "json" ++ w2 ++ t ++ w3 ++ "```" ++ w4)
    with ("```json" ++ w2 ++ t ++ w3 ++ "```" ++ w4).
  rewrite replaceAll_at_pattern by discriminate.
  rewrite replaceAll_through_whitespace by assumption.
  now rewrite first_pass_closing.
Qed.

Lemma first_pass_fenced_bare (w1 : string) (c : ascii) (w2 t w3 w4 : string) :
  all_whitespace w1 = true -> all_whitespace (String c w2) = true ->
  all_whitespace w3 = true -> all_whitespace w4 = true ->
  replaceAll "```json" "" (fenced w1 "" (String c w2) t w3 w4)
  = w1 ++ "```" ++ String c w2 ++ replaceAll "```json" "" t ++ w3 ++ "```" ++ w4.
Proof.
  intros H1 H2 H3 H4. unfold fenced.
  apply all_whitespace_cons in H2 as [Hc H2].
  rewrite replaceAll_through_whitespace by assumption.
  change ("```" ++ "" ++ String c w2 ++ t ++ w3 ++ "```" ++ w4)
    with ("```" ++ String c (w2 ++ t ++ w3 ++ "```" ++ w4)).
  rewrite first_pass_keeps_bare_marker by assumption.
  rewrite replaceAll_through_whitespace by assumption.
  now rewrite first_pass_closing.
Qed.

Lemma second_pass_after_whitespace (w u w3 w4 : string) :
  all_whitespace w = true -> all_whitespace w3 = true -> all_whitespace w4 = true ->
  replaceAll "```" "" (w ++ u ++ w3 ++ "```" ++ w4)
  = w ++ replaceAll "```" "" u ++ w3 ++ w4.
Proof.
  intros H H3 H4. rewrite replaceAll_through_whitespace by assumption.
  now rewrite second_pass_closing.
Qed.

Lemma sanitizeJSON_fenced (w1 tag w2 t w3 w4 : string) :
  all_whitespace w1 = true -> all_whitespace w2 = true ->
  all_whitespace w3 = true -> all_whitespace w4 = true ->
  tag = "json" \/ (tag = "" /\ w2 <> "") ->
  sanitizeJSON (fenced w1 tag w2 t w3 w4) = sanitizeJSON t.
Proof.
  intros H1 H2 H3 H4 Htag. unfold sanitizeJSON.
  assert (E : replaceAll "```" "" (replaceAll "```json" "" (fenced w1 tag w2 t w3 w4))
              = w1 ++ w2 ++ replaceAll "```" "" (replaceAll "```json" "" t) ++ w3 ++ w4).
  { destruct Htag as [-> | [-> Hne]].
    - rewrite first_pass_fenced_json by assumption.
      rewrite replaceAll_through_whitespace by assumption.
      now rewrite second_pass_after_whitespace.
    - destruct w2 as [|c w2]; [contradiction|].
      rewrite first_pass_fenced_bare by assumption.
      rewrite replaceAll_through_whitespace by assumption.
      rewrite replaceAll_at_pattern by discriminate.
      now rewrite second_pass_after_whitespace. }
  rewrite E.
  rewrite !trim_whitespace_app by assumption.
  rewrite <- !append_assoc.
  now rewrite !trim_app_whitespace.
Qed.

(** C7 (as amended). For every text [t], normalizing [t] wrapped in code-fence
    markers yields the same result as normalizing [t] itself, when the
    opening marker carries the language tag [json], or carries no tag and is
    followed by at least one white-space character; the closing marker is
    the triple backtick, and white space may surround the markers. *)
Theorem normalize_fenced (JSON_parse : string -> option json)
    (w1 tag w2 t w3 w4 : string) :
  all_whitespace w1 = true -> all_whitespace w2 = true ->
  all_whitespace w3 = true -> all_whitespace w4 = true ->
  tag = "json" \/ (tag = "" /\ w2 <> "") ->
  normalize JSON_parse (fenced w1 tag w2 t w3 w4) = normalize JSON_parse t.
Proof.
  intros H1 H2 H3 H4 Htag. unfold normalize.
  now rewrite sanitizeJSON_fenced.
Qed.

Lemma normalize_fenced_witness :
  normalize JsonText.parse (fenced "" "json" newline space_text newline "")
  = normalize JsonText.parse space_text.
Proof.
  apply normalize_fenced; try reflexivity. left. reflexivity.
Defined.

(** C7 (as stated) fails for a language tag other than [json]: the tag stays
    in the sanitized text, which [JSON.parse] then refuses, while the text
    itself normalizes to the puzzle. *)
Lemma normalize_fenced_other_tag :
  all_whitespace newline = true
  /\ normalize JsonText.parse (fenced "" "JSON" newline space_text newline "")
     = Throw SyntaxError
  /\ normalize JsonText.parse space_text = Ok space_puzzle.
Proof. repeat split; vm_compute; reflexivity. Qed.

(** ** Objects: keys after [obj_set] and [Object.fromEntries] *)

Lemma obj_set_keys {V : Type} (k k0 : string) (v : V) (o : jsobject V) :
  In k (obj_keys (obj_set k0 v o)) <-> k = k0 \/ In k (obj_keys o).
Proof.
  induction o as [|[k' v'] r IH]; simpl.
  - intuition congruence.
  - destruct (String.eqb_spec k0 k') as [->|Hne]; simpl.
    + intuition congruence.
    + rewrite IH. intuition congruence.
Qed.

Lemma obj_set_NoDup {V : Type} (k0 : string) (v : V) (o : jsobject V) :
  NoDup (obj_keys o) -> NoDup (obj_keys (obj_set k0 v o)).
Proof.
  induction o as [|[k' v'] r IH]; simpl; intros Hnd.
  - constructor; [intros [] | constructor].
  - inversion Hnd as [|? ? Hnotin Hnd']; subst.
    destruct (String.eqb_spec k0 k') as [->|Hne]; simpl.
    + now constructor.
    + constructor; [|now apply IH].
      intros Hin. apply (obj_set_keys k' k0 v r) in Hin as [E|Hin]; congruence.
Qed.

Lemma count_key_absent {V : Type} (k : string) (o : jsobject V) :
  ~ In k (obj_keys o) -> count_key k o = 0.
Proof.
  induction o as [|[k' v'] r IH]; simpl; intros Hnot; [reflexivity|].
  destruct (String.eqb_spec k k') as [->|Hne].
  - exfalso. apply Hnot. now left.
  - apply IH. intros Hin. apply Hnot. now right.
Qed.

Lemma count_key_NoDup {V : Type} (k : string) (o : jsobject V) :
  NoDup (obj_keys o) -> In k (obj_keys o) -> count_key k o = 1.
Proof.
  induction o as [|[k' v'] r IH]; simpl; intros Hnd Hin; [contradiction|].
  inversion Hnd as [|? ? Hnotin Hnd']; subst.
  destruct (String.eqb_spec k k') as [->|Hne].
  - now rewrite count_key_absent.
  - destruct Hin as [E|Hin]; [congruence|]. now apply IH.
Qed.

Lemma fold_obj_set_keys {V : Type} (es : list (string * V)) (acc : jsobject V) (k : string) :
  In k (obj_keys (fold_left (fun a e => obj_set (fst e) (snd e) a) es acc))
  <-> In k (map fst es) \/ In k (obj_keys acc).
Proof.
  revert acc. induction es as [|[k0 v0] r IH]; intros acc; simpl.
  - tauto.
  - rewrite IH, obj_set_keys. intuition congruence.
Qed.

Lemma fold_obj_set_NoDup {V : Type} (es : list (string * V)) (acc : jsobject V) :
  NoDup (obj_keys acc) ->
  NoDup (obj_keys (fold_left (fun a e => obj_set (fst e) (snd e) a) es acc)).
Proof.
  revert acc. induction es as [|e r IH]; intros acc Hnd; simpl; [assumption|].
  apply IH. now apply obj_set_NoDup.
Qed.

Lemma Object_fromEntries_keys {V : Type} (es : list (string * V)) (k : string) :
  In k (obj_keys (Object_fromEntries es)) <-> In k (map fst es).
Proof. unfold Object_fromEntries. rewrite fold_obj_set_keys. simpl. tauto. Qed.

Lemma Object_fromEntries_NoDup {V : Type} (es : list (string * V)) :
  NoDup (obj_keys (Object_fromEntries es)).
Proof. apply fold_obj_set_NoDup. constructor. Qed.

(** ** [toUpperCase] *)

Lemma upper_char_idempotent (c : ascii) : upper_char (upper_char c) = upper_char c.
Proof. destruct c as [[] [] [] [] [] [] [] []]; reflexivity. Qed.

Lemma toUpperCase_idempotent (s : string) : toUpperCase (toUpperCase s) = toUpperCase s.
Proof.
  induction s as [|c r IH]; simpl; [reflexivity|].
  now rewrite upper_char_idempotent, IH.
Qed.

(** ** The record built from the string-list shape *)

Lemma bind_Ok {A B : Type} (c : result A) (k : A -> result B) (b : B) :
  bind c k = Ok b -> exists a, c = Ok a /\ k a = Ok b.
Proof. destruct c as [a|e]; simpl; intros H; [now exists a | discriminate]. Qed.

Lemma array_map_toUpperCase (items : list json) (ws' : list string) :
  array_map (fun word => call_toUpperCase (Some word)) items = Ok ws' ->
  exists ws, items = map JStr ws /\ ws' = map toUpperCase ws.
Proof.
  revert ws'. induction items as [|x r IH]; simpl; intros ws' H.
  - injection H as <-. now exists [].
  - apply bind_Ok in H as [y [Hx H]]. apply bind_Ok in H as [ys [Hr H]].
    injection H as <-. destruct (IH _ Hr) as [ws [-> ->]].
    destruct x; try discriminate. injection Hx as <-.
    now exists (s :: ws).
Qed.

Lemma array_map_toUpperCase_strings (ws : list string) :
  array_map (fun word => call_toUpperCase (Some word)) (map JStr ws)
  = Ok (map toUpperCase ws).
Proof.
  induction ws as [|w r IH]; [reflexivity|].
  cbn [map array_map]. now rewrite IH.
Qed.

(** What a successful [formattedResponse] has read and built. *)
Lemma formattedResponse_Ok (parsedResult : json) (p : CachedResponse) :
  formattedResponse parsedResult = Ok p ->
  exists ws entries,
    get_property (Some parsedResult) "words" = Ok (Some (JArr (map JStr ws)))
    /\ (cl <- get_property (Some parsedResult) "clues" ;; Object_entries cl) = Ok entries
    /\ words p = map (fun w => Some (JStr (toUpperCase w))) ws
    /\ clues p = Object_fromEntries
                   (map (fun e => (toUpperCase (fst e), Some (snd e))) entries).
Proof.
  unfold formattedResponse. intros H.
  apply bind_Ok in H as [th [Hth H]]. apply bind_Ok in H as [wv [Hwv H]].
  apply bind_Ok in H as [ws' [Hws H]]. apply bind_Ok in H as [cl [Hcl H]].
  apply bind_Ok in H as [entries [Hen H]]. injection H as <-.
  destruct wv as [[| | | |items|]|]; try discriminate.
  simpl in Hws. apply array_map_toUpperCase in Hws as [ws [-> ->]].
  exists ws, entries. repeat split.
  - assumption.
  - now rewrite Hcl.
  - simpl. now rewrite map_map.
Qed.

(** No correspondence between the words and the clue keys is required for
    [formattedResponse] to succeed. *)
Lemma formattedResponse_unchecked (ms : jsobject json) (ws : list string)
    (es : jsobject json) :
  obj_get "words" ms = Some (JArr (map JStr ws)) ->
  obj_get "clues" ms = Some (JObj es) ->
  formattedResponse (JObj ms)
  = Ok {| theme := obj_get "theme" ms;
          words := map (fun w => Some (JStr (toUpperCase w))) ws;
          clues := Object_fromEntries
                     (map (fun e => (toUpperCase (fst e), Some (snd e))) es) |}.
Proof.
  intros Hw Hc. unfold formattedResponse. simpl. rewrite Hw. simpl.
  rewrite array_map_toUpperCase_strings. simpl. rewrite Hc. simpl.
  now rewrite map_map.
Qed.

Lemma formattedResponse_keys_upper (parsedResult : json) (p : CachedResponse) (k : string) :
  formattedResponse parsedResult = Ok p ->
  In k (obj_keys (clues p)) -> toUpperCase k = k.
Proof.
  intros H Hin. apply formattedResponse_Ok in H as [ws [es [_ [_ [_ Hcl]]]]].
  rewrite Hcl in Hin. apply (proj1 (Object_fromEntries_keys _ _)) in Hin.
  apply in_map_iff in Hin as [e' [<- Hin]].
  apply in_map_iff in Hin as [e [<- _]].
  apply toUpperCase_idempotent.
Qed.

(** ** Reading a property after an assignment *)

Lemma obj_get_set_same {V : Type} (k : string) (v : V) (o : jsobject V) :
  obj_get k (obj_set k v o) = Some v.
Proof.
  induction o as [|[k' v'] r IH]; simpl.
  - now rewrite String.eqb_refl.
  - destruct (String.eqb_spec k k') as [->|Hne]; simpl.
    + now rewrite String.eqb_refl.
    + destruct (String.eqb_spec k k'); [contradiction | exact IH].
Qed.

Lemma obj_get_set_other {V : Type} (k k0 : string) (v : V) (o : jsobject V) :
  k <> k0 -> obj_get k (obj_set k0 v o) = obj_get k o.
Proof.
  intros Hne. induction o as [|[k' v'] r IH]; simpl.
  - destruct (String.eqb_spec k k0); [contradiction | reflexivity].
  - destruct (String.eqb_spec k0 k') as [->|Hne']; simpl.
    + destruct (String.eqb_spec k k'); [contradiction | reflexivity].
    + destruct (String.eqb_spec k k'); [reflexivity | exact IH].
Qed.

(** ** The record built from the entry-list shape *)

Lemma add_clue_Ok (acc acc' : jsobject jsvalue) (entry : json) (y : jsvalue) :
  entry_word entry = Ok y -> add_clue acc entry = Ok acc' ->
  exists s c, y = Some (JStr s) /\ acc' = obj_set (toUpperCase s) c acc.
Proof.
  unfold entry_word, add_clue. intros Hy H. rewrite Hy in H. simpl in H.
  apply bind_Ok in H as [k [Hk H]]. apply bind_Ok in H as [c [_ H]].
  injection H as <-.
  destruct y as [[| | |s| |]|]; try discriminate. injection Hk as <-.
  now exists s, c.
Qed.

Lemma reduce_entries (items : list json) :
  forall (acc cl : jsobject jsvalue) (ws' : list jsvalue),
    array_map entry_word items = Ok ws' ->
    array_reduce add_clue items acc = Ok cl ->
    Forall (fun v => exists w, v = Some (JStr w)) ws'
    /\ (NoDup (obj_keys acc) -> NoDup (obj_keys cl))
    /\ (forall k, In k (obj_keys cl) <->
                  In k (obj_keys acc)
                  \/ exists w, In (Some (JStr w)) ws' /\ k = toUpperCase w).
Proof.
  induction items as [|x r IH]; intros acc cl ws' Hm Hr.
  - simpl in Hm, Hr. injection Hm as <-. injection Hr as <-.
    repeat split; try tauto.
    + constructor.
    + intros [H | [w [[] _]]]. exact H.
  - cbn [array_map] in Hm. cbn [array_reduce] in Hr.
    apply bind_Ok in Hm as [y [Hy Hm]]. apply bind_Ok in Hm as [ys [Hys Hm]].
    injection Hm as <-.
    apply bind_Ok in Hr as [acc' [Hacc Hr]].
    destruct (add_clue_Ok _ _ _ _ Hy Hacc) as [s [c [-> ->]]].
    destruct (IH _ _ _ Hys Hr) as [Hall [Hnd Hkeys]].
    repeat split.
    + constructor; [now exists s | assumption].
    + intros H. apply Hnd. now apply obj_set_NoDup.
    + intros Hin. apply Hkeys in Hin as [Hin | [w [Hin ->]]].
      * apply (proj1 (obj_set_keys _ _ _ _)) in Hin as [-> | Hin].
        -- right. exists s. split; [now left | reflexivity].
        -- now left.
      * right. exists w. split; [now right | reflexivity].
    + intros [Hin | [w [[E | Hin] ->]]]; apply Hkeys.
      * left. apply obj_set_keys. now right.
      * injection E as <-. left. apply obj_set_keys. now left.
      * right. now exists w.
Qed.

Lemma entriesResponse_Ok (rawResult : json) (p : CachedResponse) :
  entriesResponse rawResult = Ok p ->
  Forall (fun v => exists w, v = Some (JStr w)) (words p)
  /\ NoDup (obj_keys (clues p))
  /\ (forall k, In k (obj_keys (clues p)) <->
                exists w, In (Some (JStr w)) (words p) /\ k = toUpperCase w).
Proof.
  unfold entriesResponse. intros H.
  apply bind_Ok in H as [th [_ H]]. apply bind_Ok in H as [wv [Hwv H]].
  apply bind_Ok in H as [ws' [Hws H]]. rewrite Hwv in H. simpl in H.
  apply bind_Ok in H as [cl [Hcl H]]. injection H as <-.
  destruct wv as [[| | | |items|]|]; try discriminate.
  cbn [call_map] in Hws. cbn [call_reduce] in Hcl.
  destruct (reduce_entries items [] cl ws' Hws Hcl) as [Hall [Hnd Hkeys]].
  cbn [words clues]. repeat split.
  - assumption.
  - apply Hnd. constructor.
  - intros Hin. apply Hkeys in Hin as [[] | Hin]. exact Hin.
  - intros Hin. apply Hkeys. now right.
Qed.

Lemma add_clue_inv (acc acc' : jsobject jsvalue) (entry : json) :
  add_clue acc entry = Ok acc' ->
  exists s c, get_property (Some entry) "word" = Ok (Some (JStr s))
              /\ get_property (Some entry) "clue" = Ok c
              /\ acc' = obj_set (toUpperCase s) c acc.
Proof.
  unfold add_clue. intros H.
  apply bind_Ok in H as [w [Hw H]]. apply bind_Ok in H as [k [Hk H]].
  apply bind_Ok in H as [c [Hc H]]. injection H as <-.
  destruct w as [[| | |s| |]|]; try discriminate. injection Hk as <-.
  now exists s, c.
Qed.

(** The value under a key of the reduced object is the [clue] of an entry
    with that word, unless it was in the initial object. *)
Lemma reduce_values (items : list json) :
  forall (acc cl : jsobject jsvalue) (k : string) (c : jsvalue),
    array_reduce add_clue items acc = Ok cl ->
    obj_get k cl = Some c ->
    obj_get k acc = Some c
    \/ exists entry s,
         In entry items
         /\ get_property (Some entry) "word" = Ok (Some (JStr s))
         /\ k = toUpperCase s
         /\ get_property (Some entry) "clue" = Ok c.
Proof.
  induction items as [|x r IH]; intros acc cl k c Hr Hget.
  - cbn [array_reduce] in Hr. injection Hr as <-. now left.
  - cbn [array_reduce] in Hr. apply bind_Ok in Hr as [acc' [Hacc Hr]].
    apply add_clue_inv in Hacc as [s [c0 [Hw [Hc ->]]]].
    destruct (IH _ _ _ _ Hr Hget) as [Hin | [entry [s' [Hin H]]]].
    + destruct (string_dec k (toUpperCase s)) as [-> | Hne].
      * rewrite obj_get_set_same in Hin. injection Hin as <-.
        right. exists x, s. repeat split; try assumption. now left.
      * rewrite obj_get_set_other in Hin by assumption. now left.
    + right. exists entry, s'. split; [now right | exact H].
Qed.

Lemma entriesResponse_values (rawResult : json) (p : CachedResponse) (k : string)
    (c : jsvalue) :
  entriesResponse rawResult = Ok p ->
  obj_get k (clues p) = Some c ->
  exists items entry s,
    get_property (Some rawResult) "words" = Ok (Some (JArr items))
    /\ In entry items
    /\ get_property (Some entry) "word" = Ok (Some (JStr s))
    /\ k = toUpperCase s
    /\ get_property (Some entry) "clue" = Ok c.
Proof.
  unfold entriesResponse. intros H Hget.
  apply bind_Ok in H as [th [_ H]]. apply bind_Ok in H as [wv [Hwv H]].
  apply bind_Ok in H as [ws' [_ H]]. rewrite Hwv in H. cbn [bind] in H.
  apply bind_Ok in H as [cl [Hcl H]]. injection H as <-. cbn [clues] in Hget.
  destruct wv as [[| | | |items|]|]; try discriminate.
  cbn [call_reduce] in Hcl.
  destruct (reduce_values items [] cl k c Hcl Hget) as [Hin | [entry [s H]]];
    [discriminate|].
  now exists items, entry, s.
Qed.

(** An entry that has a word and no clue is accepted: its key is bound to
    [undefined]. *)
Lemma entriesResponse_without_clue (ms : jsobject json) (s : string) :
  obj_get "words" ms = Some (JArr [JObj [("word", JStr s)]]) ->
  entriesResponse (JObj ms)
  = Ok {| theme := obj_get "theme" ms;
          words := [Some (JStr s)];
          clues := [(toUpperCase s, undefined)] |}.
Proof. intros Hw. unfold entriesResponse. cbn [get_property bind]. now rewrite Hw. Qed.

(** C1 (as amended). No check of the correspondence between words and clues
    is made and no schema error exists.  In the string-list shape the
    record is built from any array of strings and any clue object, whether
    or not they correspond.  In the entry-list shape only the keys of the
    clues follow the words by construction, up to letter case: every
    returned word is a string whose uppercased form is a key of the clues
    exactly once, and every clue key is the uppercased form of a returned
    word.  The value under a key is the [clue] field of an entry with that
    word, whatever it is: it is [undefined] when that entry has no clue, so
    in this shape too a word can be returned without a clue (an entry
    [{word: s}] alone gives the key of [s] bound to [undefined]). *)
Theorem normalization_checks_no_correspondence :
  (forall (ms : jsobject json) (ws : list string) (es : jsobject json),
      obj_get "words" ms = Some (JArr (map JStr ws)) ->
      obj_get "clues" ms = Some (JObj es) ->
      formattedResponse (JObj ms)
      = Ok {| theme := obj_get "theme" ms;
              words := map (fun w => Some (JStr (toUpperCase w))) ws;
              clues := Object_fromEntries
                         (map (fun e => (toUpperCase (fst e), Some (snd e))) es) |})
  /\ (forall (rawResult : json) (p : CachedResponse),
         entriesResponse rawResult = Ok p ->
         (forall v, In v (words p) ->
                    exists w, v = Some (JStr w)
                              /\ count_key (toUpperCase w) (clues p) = 1)
         /\ (forall k, In k (obj_keys (clues p)) ->
                       exists w, In (Some (JStr w)) (words p) /\ k = toUpperCase w)
         /\ (forall k c, obj_get k (clues p) = Some c ->
                         exists items entry s,
                           get_property (Some rawResult) "words" = Ok (Some (JArr items))
                           /\ In entry items
                           /\ get_property (Some entry) "word" = Ok (Some (JStr s))
                           /\ k = toUpperCase s
                           /\ get_property (Some entry) "clue" = Ok c))
  /\ (forall (ms : jsobject json) (s : string),
         obj_get "words" ms = Some (JArr [JObj [("word", JStr s)]]) ->
         entriesResponse (JObj ms)
         = Ok {| theme := obj_get "theme" ms;
                 words := [Some (JStr s)];
                 clues := [(toUpperCase s, undefined)] |}).
Proof.
  split; [|split].
  - apply formattedResponse_unchecked.
  - intros rawResult p H.
    pose proof (entriesResponse_Ok _ _ H) as [Hall [Hnd Hkeys]].
    split; [|split].
    + intros v Hin. rewrite Forall_forall in Hall.
      destruct (Hall v Hin) as [w ->]. exists w. split; [reflexivity|].
      apply count_key_NoDup; [assumption|]. apply Hkeys. now exists w.
    + intros k Hin. now apply Hkeys.
    + intros k c Hget. now apply (entriesResponse_values rawResult p k c).
  - apply entriesResponse_without_clue.
Qed.

Lemma normalization_checks_no_correspondence_witness :
  formattedResponse
    (JObj [("theme", JStr "Pets");
           ("words", JArr (map JStr ["cat"]));
           ("clues", JObj [("dog", JStr "It barks")])])
  = Ok mismatch_puzzle
  /\ (forall k, In k (obj_keys (clues entries_puzzle)) ->
                exists w, In (Some (JStr w)) (words entries_puzzle) /\ k = toUpperCase w)
  /\ entriesResponse (JObj [("words", JArr [JObj [("word", JStr "orbit")]])])
     = Ok {| theme := undefined;
             words := [Some (JStr "orbit")];
             clues := [("ORBIT", undefined)] |}.
Proof.
  split; [|split].
  - apply (proj1 normalization_checks_no_correspondence
             [("theme", JStr "Pets");
              ("words", JArr (map JStr ["cat"]));
              ("clues", JObj [("dog", JStr "It barks")])]
             ["cat"] [("dog", JStr "It barks")]); reflexivity.
  - apply (proj1 (proj2 (proj1 (proj2 normalization_checks_no_correspondence)
             (JObj [("theme", JStr "Space");
                    ("words",
                     JArr [JObj [("word", JStr "orbit"); ("clue", JStr "Path around a star")];
                           JObj [("word", JStr "comet"); ("clue", JStr "Icy body with a tail")]])])
             entries_puzzle eq_refl))).
  - apply (proj2 (proj2 normalization_checks_no_correspondence)
             [("words", JArr [JObj [("word", JStr "orbit")]])] "orbit").
    reflexivity.
Defined.

(** C1 (as stated) fails: a text in which the word has no clue and the clue
    key is no word normalizes, without any error, to a record that violates
    the correspondence. *)
Lemma normalize_returns_mismatch :
  normalize JsonText.parse mismatch_text = Ok mismatch_puzzle
  /\ words_clues_ok mismatch_puzzle = false.
Proof. split; vm_compute; reflexivity. Qed.

(** C2 (as amended). For every output that the string-list builder accepts,
    the words are an array of strings and the returned list is its
    uppercased image, in the same order and of the same length (duplicates
    are kept); the returned clue keys are the uppercased keys of the parsed
    clues.  In both shapes every returned clue key is in upper case. *)
Theorem normalized_words_and_keys_uppercased :
  (forall (parsedResult : json) (p : CachedResponse),
      formattedResponse parsedResult = Ok p ->
      exists ws entries,
        get_property (Some parsedResult) "words" = Ok (Some (JArr (map JStr ws)))
        /\ (cl <- get_property (Some parsedResult) "clues" ;; Object_entries cl) = Ok entries
        /\ words p = map (fun w => Some (JStr (toUpperCase w))) ws
        /\ (forall k, In k (obj_keys (clues p)) <->
                      exists k0, In k0 (map fst entries) /\ k = toUpperCase k0))
  /\ (forall (parsedResult : json) (p : CachedResponse) (k : string),
         formattedResponse parsedResult = Ok p ->
         In k (obj_keys (clues p)) -> toUpperCase k = k)
  /\ (forall (rawResult : json) (p : CachedResponse) (k : string),
         entriesResponse rawResult = Ok p ->
         In k (obj_keys (clues p)) -> toUpperCase k = k).
Proof.
  split; [|split].
  - intros parsedResult p H.
    apply formattedResponse_Ok in H as [ws [es [Hw [He [Hws Hcl]]]]].
    exists ws, es. repeat split; try assumption.
    + intros Hin. rewrite Hcl in Hin.
      apply (proj1 (Object_fromEntries_keys _ _)) in Hin.
      apply in_map_iff in Hin as [e' [<- Hin]].
      apply in_map_iff in Hin as [e [<- Hin]].
      exists (fst e). split; [now apply in_map | reflexivity].
    + intros [k0 [Hin ->]]. rewrite Hcl. apply Object_fromEntries_keys.
      apply in_map_iff in Hin as [e [<- Hin]].
      apply in_map_iff. exists (toUpperCase (fst e), Some (snd e)).
      split; [reflexivity|].
      apply in_map_iff. now exists e.
  - intros parsedResult p k. apply formattedResponse_keys_upper.
  - intros rawResult p k H Hin.
    apply entriesResponse_Ok in H as [_ [_ Hkeys]].
    apply Hkeys in Hin as [w [_ ->]]. apply toUpperCase_idempotent.
Qed.

Lemma normalized_words_and_keys_uppercased_witness :
  toUpperCase "CAT" = "CAT".
Proof.
  apply (proj1 (proj2 normalized_words_and_keys_uppercased)
           (JObj [("theme", JStr "Pets");
                  ("words", JArr [JStr "cat"; JStr "Cat"]);
                  ("clues", JObj [("cat", JStr "It purrs")])])
           duplicate_puzzle "CAT").
  - reflexivity.
  - simpl. now left.
Defined.

(** C2 (as stated) fails: a word given twice stays twice in the returned
    list, while the duplicate-removed list of the specification holds it
    once. *)
Lemma normalize_keeps_duplicates :
  normalize JsonText.parse duplicate_text = Ok duplicate_puzzle
  /\ words duplicate_puzzle = [Some (JStr "CAT"); Some (JStr "CAT")]
  /\ map (fun w => Some (JStr w)) (spec_canonical_words ["cat"; "Cat"])
     = [Some (JStr "CAT")]
  /\ words duplicate_puzzle
     <> map (fun w => Some (JStr w)) (spec_canonical_words ["cat"; "Cat"]).
Proof.
  split; [|split; [|split]]; try (vm_compute; reflexivity).
  vm_compute. discriminate.
Qed.

(** ** The handlers with a memory tier *)

Section HandlerProperties.

Variable JSON_parse : string -> option json.
Variable toDateString : Date -> string.
Variable toISOString : Date -> string.

Lemma not_options (method : string) :
  method <> "OPTIONS" -> String.eqb method "OPTIONS" = false.
Proof. intros H. now apply String.eqb_neq. Qed.

Lemma memory_hit_Some (st : module_state) (now d : Date) (c : CachedResponse) :
  cachedResponse st = Some c -> lastFetched st = Some d ->
  toDateString now = toDateString d ->
  memory_hit toDateString st now = Some c.
Proof.
  intros Hc Hd E. unfold memory_hit. rewrite Hc, Hd, E.
  now rewrite String.eqb_refl.
Qed.

(** A handler with a memory tier changes the state only by setting both
    variables. *)
Lemma handler_sanitized_state (st : module_state) (method : string) (now : Date)
    (completion : result (option string)) :
  let st' := fst (fst (handler_sanitized JSON_parse toDateString st method now completion)) in
  st' = st
  \/ exists r, generate_sanitized JSON_parse completion = Ok r
               /\ st' = {| cachedResponse := Some r; lastFetched := Some now |}.
Proof.
  unfold handler_sanitized.
  destruct (String.eqb method "OPTIONS"); [now left|].
  destruct (memory_hit toDateString st now); [now left|].
  destruct (generate_sanitized JSON_parse completion) as [r|e]; [|now left].
  right. now exists r.
Qed.

Lemma handler_entries_state (st : module_state) (now : Date)
    (completion : result (option string)) :
  let st' := fst (fst (handler_entries JSON_parse toDateString st now completion)) in
  st' = st
  \/ exists r, generate_entries JSON_parse completion = Ok r
               /\ st' = {| cachedResponse := Some r; lastFetched := Some now |}.
Proof.
  unfold handler_entries.
  destruct (memory_hit toDateString st now); [now left|].
  destruct (generate_entries JSON_parse completion) as [r|e]; [|now left].
  right. now exists r.
Qed.

Lemma handler_entries_cors_state (st : module_state) (method : string) (now : Date)
    (completion : result (option string)) :
  let st' := fst (fst (handler_entries_cors JSON_parse toDateString st method now completion)) in
  st' = st
  \/ exists r, generate_entries JSON_parse completion = Ok r
               /\ st' = {| cachedResponse := Some r; lastFetched := Some now |}.
Proof.
  unfold handler_entries_cors.
  destruct (String.eqb method "OPTIONS"); [now left|].
  destruct (memory_hit toDateString st now); [now left|].
  destruct (generate_entries JSON_parse completion) as [r|e]; [|now left].
  right. now exists r.
Qed.

Lemma consistent_after (st st' : module_state) (now : Date) (P : CachedResponse -> Prop) :
  consistent st ->
  st' = st \/ (exists r, P r /\ st' = {| cachedResponse := Some r; lastFetched := Some now |}) ->
  consistent st'.
Proof.
  intros Hc [-> | [r [_ ->]]]; [assumption|].
  unfold consistent. simpl. split; discriminate.
Qed.

(** C9. The handlers update [cachedResponse] and [lastFetched] only
    together: from a state in which both are null or both are set, every
    complete execution of a handler with a memory tier ends in such a
    state. *)
Theorem handlers_keep_state_consistent (st : module_state) (method : string)
    (now : Date) (completion : result (option string)) :
  consistent st ->
  consistent (fst (fst (handler_sanitized JSON_parse toDateString st method now completion)))
  /\ consistent (fst (fst (handler_entries JSON_parse toDateString st now completion)))
  /\ consistent (fst (fst (handler_entries_cors JSON_parse toDateString st method now completion))).
Proof.
  intros Hc. split; [|split].
  - eapply consistent_after; [exact Hc | apply handler_sanitized_state].
  - eapply consistent_after; [exact Hc | apply handler_entries_state].
  - eapply consistent_after; [exact Hc | apply handler_entries_cors_state].
Qed.

(** C6. On the memory-hit path (a cached record exists and [lastFetched]
    falls on the day of [now]) the handler returns the cached record with
    status 200, leaves the state as it is and calls no external service:
    neither the generation client nor a durable store. *)
Theorem memory_hit_makes_no_call (st : module_state) (method : string)
    (now d : Date) (c : CachedResponse) (completion : result (option string)) :
  cachedResponse st = Some c -> lastFetched st = Some d ->
  toDateString now = toDateString d ->
  method <> "OPTIONS" ->
  handler_sanitized JSON_parse toDateString st method now completion
  = (st, mkResponse cors_headers 200 (PuzzleBody c), [])
  /\ handler_entries JSON_parse toDateString st now completion
     = (st, mkResponse [] 200 (PuzzleBody c), [])
  /\ handler_entries_cors JSON_parse toDateString st method now completion
     = (st, mkResponse cors_headers 200 (PuzzleBody c), []).
Proof.
  intros Hc Hd E Hm.
  unfold handler_sanitized, handler_entries, handler_entries_cors.
  rewrite (not_options _ Hm), (memory_hit_Some st now d c Hc Hd E).
  repeat split.
Qed.

(** C5. When the generation call or the normalization fails, the handler
    answers with status 500 and the error, and changes nothing: the module
    state after the execution is the state before it, and the blob variant
    performs no write to the store. *)
Theorem failure_mutates_no_cache (st : module_state) (method : string) (now : Date)
    (completion : result (option string)) (sv : blob_services) (e : js_error) :
  (generate_sanitized JSON_parse completion = Throw e ->
   fst (fst (handler_sanitized JSON_parse toDateString st method now completion)) = st
   /\ (method <> "OPTIONS" -> memory_hit toDateString st now = None ->
       handler_sanitized JSON_parse toDateString st method now completion
       = (st, mkResponse cors_headers 500 (ErrorBody "Internal Server Error" (Some e)),
          [CallGeneration])))
  /\ (generate_entries JSON_parse completion = Throw e ->
      fst (fst (handler_entries JSON_parse toDateString st now completion)) = st
      /\ fst (fst (handler_entries_cors JSON_parse toDateString st method now completion)) = st
      /\ (memory_hit toDateString st now = None ->
          handler_entries JSON_parse toDateString st now completion
          = (st, mkResponse [] 500 (ErrorBody "Error generating crossword puzzle" None),
             [CallGeneration]))
      /\ (method <> "OPTIONS" -> memory_hit toDateString st now = None ->
          handler_entries_cors JSON_parse toDateString st method now completion
          = (st, mkResponse cors_headers 500 (ErrorBody "Internal Server Error" (Some e)),
             [CallGeneration])))
  /\ (generate_sanitized JSON_parse (completion_of sv) = Throw e ->
      count_calls is_durable_write (snd (handler_blob JSON_parse toISOString sv method now)) = 0
      /\ (forall blobs,
             method <> "OPTIONS" ->
             list_blobs sv (prefix_of toISOString now) = Ok blobs ->
             find (fun b => String.eqb (pathname b) (puzzlePath_of toISOString now)) blobs
             = None ->
             handler_blob JSON_parse toISOString sv method now
             = (internal_error e, [CallList (prefix_of toISOString now); CallGeneration]))).
Proof.
  split; [|split].
  - intros Hg. unfold handler_sanitized. rewrite Hg. split.
    + destruct (String.eqb method "OPTIONS"); [reflexivity|].
      now destruct (memory_hit toDateString st now).
    + intros Hm Hh. now rewrite (not_options _ Hm), Hh.
  - intros Hg. unfold handler_entries, handler_entries_cors. rewrite Hg.
    repeat split.
    + now destruct (memory_hit toDateString st now).
    + destruct (String.eqb method "OPTIONS"); [reflexivity|].
      now destruct (memory_hit toDateString st now).
    + intros Hh. now rewrite Hh.
    + intros Hm Hh. now rewrite (not_options _ Hm), Hh.
  - intros Hg. unfold handler_blob. rewrite Hg. split.
    + destruct (String.eqb method "OPTIONS"); [reflexivity|].
      destruct (list_blobs sv (prefix_of toISOString now)) as [blobs|e']; [|reflexivity].
      destruct (find _ blobs) as [b|]; [|reflexivity].
      destruct (fetch_blob sv (url b)) as [r|e']; [|reflexivity].
      destruct (negb (ok r)); [reflexivity|].
      now destruct (JSON_parse_or_throw JSON_parse (fetch_text r)).
    + intros blobs Hm Hl Hf. now rewrite (not_options _ Hm), Hl, Hf.
Qed.

(** C8 (as amended). When the generation call rejects, its error is the
    error of the pipeline.  When the call returns no content or empty
    content, the variants that parse the content as it is (third file,
    part_000) throw the error "No content returned by OpenAI API", which is
    not the [SyntaxError] that they throw on unparseable text; the variants
    that sanitize (first and second file) put the empty string in the place
    of the missing content and fail with the [SyntaxError] of [JSON.parse],
    the error that they throw on unparseable text. *)
Theorem missing_content_errors :
  JSON_parse "" = None ->
  (forall e, generate_sanitized JSON_parse (Throw e) = Throw e
             /\ generate_entries JSON_parse (Throw e) = Throw e)
  /\ generate_entries JSON_parse (Ok None)
     = Throw (Error "No content returned by OpenAI API")
  /\ generate_entries JSON_parse (Ok (Some ""))
     = Throw (Error "No content returned by OpenAI API")
  /\ (forall text, text <> "" -> JSON_parse text = None ->
                   generate_entries JSON_parse (Ok (Some text)) = Throw SyntaxError)
  /\ generate_sanitized JSON_parse (Ok None) = Throw SyntaxError
  /\ generate_sanitized JSON_parse (Ok (Some "")) = Throw SyntaxError
  /\ (forall text, JSON_parse (sanitizeJSON text) = None ->
                   generate_sanitized JSON_parse (Ok (Some text)) = Throw SyntaxError).
Proof.
  intros Hempty. repeat split.
  - intros text Hne Hp. destruct text as [|c r]; [contradiction|].
    unfold generate_entries, JSON_parse_or_throw. simpl. now rewrite Hp.
  - unfold generate_sanitized, normalize, JSON_parse_or_throw. simpl.
    change (sanitizeJSON "") with "". now rewrite Hempty.
  - unfold generate_sanitized, normalize, JSON_parse_or_throw. simpl.
    change (sanitizeJSON "") with "". now rewrite Hempty.
  - intros text Hp.
    unfold generate_sanitized, normalize, JSON_parse_or_throw. simpl. now rewrite Hp.
Qed.

(** ** The handler on blob storage *)

(** C4 (as amended). If generation and normalization succeed but the write
    to the store fails, the handler answers with status 500 and the error of
    the write; the generated puzzle is not returned. *)
Theorem put_failure_is_an_error (sv : blob_services) (method : string) (now : Date)
    (blobs : list blob) (r : CachedResponse) (e : js_error) :
  method <> "OPTIONS" ->
  list_blobs sv (prefix_of toISOString now) = Ok blobs ->
  find (fun b => String.eqb (pathname b) (puzzlePath_of toISOString now)) blobs = None ->
  generate_sanitized JSON_parse (completion_of sv) = Ok r ->
  put_blob sv (puzzlePath_of toISOString now) r = Throw e ->
  handler_blob JSON_parse toISOString sv method now
  = (mkResponse cors_headers 500 (ErrorBody "Internal Server Error" (Some e)),
     [CallList (prefix_of toISOString now); CallGeneration;
      CallPut (puzzlePath_of toISOString now) r]).
Proof.
  intros Hm Hl Hf Hg Hp. unfold handler_blob.
  now rewrite (not_options _ Hm), Hl, Hf, Hg, Hp.
Qed.

Lemma handler_blob_same_day (sv : blob_services) (method : string) (now now' : Date) :
  today_of toISOString now' = today_of toISOString now ->
  handler_blob JSON_parse toISOString sv method now'
  = handler_blob JSON_parse toISOString sv method now.
Proof.
  intros E. unfold handler_blob, puzzlePath_of, prefix_of. now rewrite E.
Qed.

(** C3 (as amended). On the durable-hit path of the blob variant (the
    listing shows the record of the day, the fetch succeeds and its body
    parses) the handler makes no generation call, one listing and exactly
    one read, and returns the fetched data with status 200.  The variant
    has no memory tier: a following call on the same day, with the same
    answers of the store, performs the same listing and read again. *)
Theorem durable_hit_reads_store_each_time (sv : blob_services) (method : string)
    (now now' : Date) (blobs : list blob) (existingPuzzle : blob)
    (puzzleResponse : fetch_response) (puzzleData : json) :
  method <> "OPTIONS" ->
  list_blobs sv (prefix_of toISOString now) = Ok blobs ->
  find (fun b => String.eqb (pathname b) (puzzlePath_of toISOString now)) blobs
  = Some existingPuzzle ->
  fetch_blob sv (url existingPuzzle) = Ok puzzleResponse ->
  ok puzzleResponse = true ->
  JSON_parse (fetch_text puzzleResponse) = Some puzzleData ->
  today_of toISOString now' = today_of toISOString now ->
  let first := handler_blob JSON_parse toISOString sv method now in
  let second := handler_blob JSON_parse toISOString sv method now' in
  first = (mkResponse cors_headers 200 (ValueBody puzzleData),
           [CallList (prefix_of toISOString now); CallFetch (url existingPuzzle)])
  /\ count_calls is_generation (snd first) = 0
  /\ count_calls is_durable_read (snd first) = 1
  /\ second = first.
Proof.
  intros Hm Hl Hf Hfe Hok Hp E first second.
  assert (H : first = (mkResponse cors_headers 200 (ValueBody puzzleData),
                       [CallList (prefix_of toISOString now);
                        CallFetch (url existingPuzzle)])).
  { unfold first, handler_blob, JSON_parse_or_throw.
    now rewrite (not_options _ Hm), Hl, Hf, Hfe, Hok, Hp. }
  rewrite H. repeat split.
  unfold second. rewrite (handler_blob_same_day sv method now now' E). exact H.
Qed.

End HandlerProperties.

(** ** The scenarios *)

Lemma handlers_keep_state_consistent_witness :
  consistent initial_state
  /\ consistent
       (fst (fst (handler_sanitized JsonText.parse day_number_string initial_state
                    "GET" example_now (Ok (Some space_text)))))
  /\ consistent
       (fst (fst (handler_entries JsonText.parse day_number_string initial_state
                    example_now (Ok (Some space_text)))))
  /\ consistent
       (fst (fst (handler_entries_cors JsonText.parse day_number_string initial_state
                    "GET" example_now (Ok (Some space_text))))).
Proof.
  assert (H : consistent initial_state) by (unfold consistent; simpl; tauto).
  split; [exact H|].
  apply (handlers_keep_state_consistent JsonText.parse day_number_string
           initial_state "GET" example_now (Ok (Some space_text)) H).
Defined.

Lemma memory_hit_makes_no_call_witness :
  handler_sanitized JsonText.parse day_number_string cached_state "GET"
    (example_now + 3600000)%Z (Throw (Error "the generation service is down"))
  = (cached_state, mkResponse cors_headers 200 (PuzzleBody space_puzzle), [])
  /\ handler_entries JsonText.parse day_number_string cached_state
       (example_now + 3600000)%Z (Throw (Error "the generation service is down"))
     = (cached_state, mkResponse [] 200 (PuzzleBody space_puzzle), [])
  /\ handler_entries_cors JsonText.parse day_number_string cached_state "GET"
       (example_now + 3600000)%Z (Throw (Error "the generation service is down"))
     = (cached_state, mkResponse cors_headers 200 (PuzzleBody space_puzzle), []).
Proof.
  apply (memory_hit_makes_no_call JsonText.parse day_number_string cached_state "GET"
           (example_now + 3600000)%Z example_now space_puzzle).
  - reflexivity.
  - reflexivity.
  - vm_compute. reflexivity.
  - discriminate.
Defined.

(** The raw output [not json at all] yields the [SyntaxError] of
    [JSON.parse] and no cache is changed. *)
Lemma failure_mutates_no_cache_witness :
  handler_sanitized JsonText.parse day_number_string cached_state "GET"
    (example_now + 86400000)%Z (Ok (Some "not json at all"))
  = (cached_state,
     mkResponse cors_headers 500 (ErrorBody "Internal Server Error" (Some SyntaxError)),
     [CallGeneration])
  /\ handler_blob JsonText.parse day_number_string malformed_services "GET" example_now
     = (internal_error SyntaxError,
        [CallList (prefix_of day_number_string example_now); CallGeneration]).
Proof.
  pose proof (failure_mutates_no_cache JsonText.parse day_number_string day_number_string
                cached_state "GET" (example_now + 86400000)%Z
                (Ok (Some "not json at all")) malformed_services SyntaxError) as H1.
  pose proof (failure_mutates_no_cache JsonText.parse day_number_string day_number_string
                cached_state "GET" example_now
                (Ok (Some "not json at all")) malformed_services SyntaxError) as H2.
  split.
  - apply (proj1 H1); [reflexivity | discriminate | reflexivity].
  - apply (proj2 (proj2 H2)) with (blobs := []);
      [reflexivity | discriminate | reflexivity | reflexivity].
Defined.

Lemma missing_content_errors_witness :
  generate_entries JsonText.parse (Ok None)
  = Throw (Error "No content returned by OpenAI API")
  /\ generate_sanitized JsonText.parse (Ok None) = Throw SyntaxError.
Proof.
  pose proof (missing_content_errors JsonText.parse eq_refl) as H.
  split.
  - exact (proj1 (proj2 H)).
  - exact (proj1 (proj2 (proj2 (proj2 (proj2 H))))).
Defined.

(** C8 (as stated) fails in the sanitizing variants: missing content ends in
    the error that unparseable text ends in. *)
Lemma missing_content_is_a_parse_error :
  generate_sanitized JsonText.parse (Ok None) = Throw SyntaxError
  /\ generate_sanitized JsonText.parse (Ok (Some "")) = Throw SyntaxError
  /\ generate_sanitized JsonText.parse (Ok (Some "not json at all")) = Throw SyntaxError.
Proof. repeat split. Qed.

Lemma put_failure_is_an_error_witness :
  handler_blob JsonText.parse day_number_string failing_put_services "GET" example_now
  = (mkResponse cors_headers 500
       (ErrorBody "Internal Server Error" (Some (Error "Blob store unavailable"))),
     [CallList (prefix_of day_number_string example_now); CallGeneration;
      CallPut (puzzlePath_of day_number_string example_now) space_puzzle]).
Proof.
  apply (put_failure_is_an_error JsonText.parse day_number_string failing_put_services
           "GET" example_now [] space_puzzle (Error "Blob store unavailable")).
  - discriminate.
  - reflexivity.
  - reflexivity.
  - vm_compute. reflexivity.
  - reflexivity.
Defined.

(** C4 (as stated) fails: the generation and the normalization succeed, the
    write fails, and the caller receives status 500 and no puzzle. *)
Lemma put_failure_returns_500 :
  generate_sanitized JsonText.parse (completion_of failing_put_services) = Ok space_puzzle
  /\ put_blob failing_put_services (puzzlePath_of day_number_string example_now) space_puzzle
     = Throw (Error "Blob store unavailable")
  /\ fst (handler_blob JsonText.parse day_number_string failing_put_services "GET" example_now)
     = mkResponse cors_headers 500
         (ErrorBody "Internal Server Error" (Some (Error "Blob store unavailable"))).
Proof. repeat split; vm_compute; reflexivity. Qed.

Lemma durable_hit_reads_store_each_time_witness :
  handler_blob JsonText.parse day_number_string stored_services "GET" example_now
  = (mkResponse cors_headers 200
       (ValueBody (JObj [("theme", JStr "Space");
                         ("words", JArr [JStr "orbit"; JStr "comet"]);
                         ("clues", JObj [("ORBIT", JStr "Path around a star");
                                         ("COMET", JStr "Icy body with a tail")])])),
     [CallList (prefix_of day_number_string example_now); CallFetch (url stored_blob)])
  /\ handler_blob JsonText.parse day_number_string stored_services "GET"
       (example_now + 60000)%Z
     = handler_blob JsonText.parse day_number_string stored_services "GET" example_now.
Proof.
  pose proof (durable_hit_reads_store_each_time JsonText.parse day_number_string
                stored_services "GET" example_now (example_now + 60000)%Z
                [stored_blob] stored_blob
                {| ok := true; fetch_status := 200; fetch_text := space_text |}
                (JObj [("theme", JStr "Space");
                       ("words", JArr [JStr "orbit"; JStr "comet"]);
                       ("clues", JObj [("ORBIT", JStr "Path around a star");
                                       ("COMET", JStr "Icy body with a tail")])])) as H.
  cbv zeta in H.
  assert (Hm : "GET" <> "OPTIONS") by discriminate.
  assert (Hf : find (fun b => String.eqb (pathname b)
                                (puzzlePath_of day_number_string example_now))
                 [stored_blob] = Some stored_blob) by (vm_compute; reflexivity).
  assert (Hp : JsonText.parse (fetch_text {| ok := true; fetch_status := 200;
                                             fetch_text := space_text |})
               = Some (JObj [("theme", JStr "Space");
                             ("words", JArr [JStr "orbit"; JStr "comet"]);
                             ("clues", JObj [("ORBIT", JStr "Path around a star");
                                             ("COMET", JStr "Icy body with a tail")])]))
    by (vm_compute; reflexivity).
  assert (Hd : today_of day_number_string (example_now + 60000)%Z
               = today_of day_number_string example_now) by (vm_compute; reflexivity).
  specialize (H Hm eq_refl Hf eq_refl eq_refl Hp Hd).
  split; [exact (proj1 H) | exact (proj2 (proj2 (proj2 H)))].
Defined.

(** C3 (as stated) fails: after a durable hit nothing is kept in memory; the
    following call of the same day lists and reads the store again, which a
    memory hit does not. *)
Lemma durable_hit_populates_no_memory :
  let first := handler_blob JsonText.parse day_number_string stored_services "GET"
                 example_now in
  let second := handler_blob JsonText.parse day_number_string stored_services "GET"
                  (example_now + 60000)%Z in
  count_calls is_generation (snd first) = 0
  /\ count_calls is_durable_read (snd first) = 1
  /\ status (fst second) = 200%Z
  /\ count_calls is_durable_read (snd second) = 1
  /\ count_calls is_durable (snd second) = 2.
Proof. repeat split; vm_compute; reflexivity. Qed.

(* ================================================================== *)
(** * Part III: further properties of the code *)
(* ================================================================== *)

(** ** [sanitizeJSON] on clean and on sanitized text *)

Lemma replaceAll_absent (pat rep s : string) :
  includes pat s = false -> replaceAll pat rep s = s.
Proof.
  induction s as [|c r IH]; intros H; [reflexivity|].
  rewrite includes_cons in H. apply orb_false_iff in H as [Hp Hr].
  rewrite replaceAll_nomatch by assumption. now rewrite IH.
Qed.

Lemma trimStart_fixed (s : string) :
  starts_with_whitespace s = false -> trimStart s = s.
Proof. destruct s as [|c r]; simpl; intros H; [reflexivity | now rewrite H]. Qed.

Lemma trimStart_starts (s : string) : starts_with_whitespace (trimStart s) = false.
Proof.
  induction s as [|c r IH]; [reflexivity|]. simpl.
  destruct (is_whitespace c) eqn:E; [exact IH | simpl; exact E].
Qed.

Lemma trimEnd_starts (s : string) :
  starts_with_whitespace s = false -> starts_with_whitespace (trimEnd s) = false.
Proof.
  destruct s as [|c r]; [reflexivity|]. simpl. intros H.
  destruct (trimEnd r); simpl; now rewrite H.
Qed.

Lemma trimEnd_ends (s : string) : ends_with_whitespace (trimEnd s) = false.
Proof.
  induction s as [|c r IH]; [reflexivity|]. cbn [trimEnd].
  destruct (trimEnd r) as [|d t] eqn:E.
  - destruct (is_whitespace c) eqn:Hc; [reflexivity | simpl; exact Hc].
  - exact IH.
Qed.

Lemma trimEnd_idempotent (s : string) : trimEnd (trimEnd s) = trimEnd s.
Proof.
  induction s as [|c r IH]; [reflexivity|]. cbn [trimEnd].
  destruct (trimEnd r) as [|d t] eqn:E.
  - destruct (is_whitespace c) eqn:Hc; [reflexivity|].
    cbn [trimEnd]. now rewrite Hc.
  - cbn [trimEnd] in *. rewrite IH. reflexivity.
Qed.

Lemma trim_idempotent (s : string) : trim (trim s) = trim s.
Proof.
  unfold trim.
  rewrite (trimStart_fixed (trimEnd (trimStart s))).
  - apply trimEnd_idempotent.
  - apply trimEnd_starts, trimStart_starts.
Qed.

Lemma sanitized_has_no_fence (s : string) : includes "```" (sanitizeJSON s) = false.
Proof.
  unfold sanitizeJSON.
  destruct (includes "```" (trim (replaceAll "```" "" (replaceAll "```json" "" s))))
    eqn:E; [|reflexivity].
  apply trim_includes in E. now rewrite strip_removes_fences in E.
Qed.

Lemma no_fence_no_json_fence (s : string) :
  includes "```" s = false -> includes "```json" s = false.
Proof.
  intros H. destruct (includes "```json" s) eqn:E; [|reflexivity].
  apply (includes_longer "```" "json") in E. congruence.
Qed.

(** X2. A text that holds no triple backtick is only trimmed. *)
Theorem sanitizeJSON_without_fence (response : string) :
  includes "```" response = false -> sanitizeJSON response = trim response.
Proof.
  intros H. unfold sanitizeJSON.
  rewrite (replaceAll_absent "```json") by now apply no_fence_no_json_fence.
  now rewrite replaceAll_absent.
Qed.

Lemma sanitizeJSON_without_fence_witness :
  sanitizeJSON (newline ++ space_text ++ newline) = trim (newline ++ space_text ++ newline).
Proof. apply sanitizeJSON_without_fence. vm_compute. reflexivity. Defined.

(** X1. [sanitizeJSON] is idempotent: sanitizing a sanitized text changes
    nothing. *)
Theorem sanitizeJSON_idempotent (response : string) :
  sanitizeJSON (sanitizeJSON response) = sanitizeJSON response.
Proof.
  pose proof (sanitized_has_no_fence response) as H.
  unfold sanitizeJSON at 1.
  rewrite (replaceAll_absent "```json") by now apply no_fence_no_json_fence.
  rewrite replaceAll_absent by assumption.
  unfold sanitizeJSON. apply trim_idempotent.
Qed.

(** X3. The sanitized text neither begins nor ends with white space. *)
Theorem sanitizeJSON_trimmed (response : string) :
  starts_with_whitespace (sanitizeJSON response) = false
  /\ ends_with_whitespace (sanitizeJSON response) = false.
Proof.
  unfold sanitizeJSON, trim. split.
  - apply trimEnd_starts, trimStart_starts.
  - apply trimEnd_ends.
Qed.

(** ** When the builders succeed, and how they fail *)

Lemma bind_Throw {A B : Type} (c : result A) (k : A -> result B) (e : js_error) :
  bind c k = Throw e -> c = Throw e \/ exists a, c = Ok a /\ k a = Throw e.
Proof.
  destruct c as [a|e']; simpl; intros H; [right; now exists a|].
  left. now injection H as ->.
Qed.

Lemma get_property_Throw (v : jsvalue) (name : string) (e : js_error) :
  get_property v name = Throw e -> e = TypeError.
Proof. destruct v as [[]|]; simpl; intros H; congruence. Qed.

Lemma call_toUpperCase_Throw (v : jsvalue) (e : js_error) :
  call_toUpperCase v = Throw e -> e = TypeError.
Proof. destruct v as [[]|]; simpl; intros H; congruence. Qed.

Lemma Object_entries_Throw (v : jsvalue) (e : js_error) :
  Object_entries v = Throw e -> e = TypeError.
Proof. destruct v as [[]|]; simpl; intros H; congruence. Qed.

Lemma array_map_Throw {A B : Type} (f : A -> result B) (xs : list A) (e : js_error) :
  (forall x e', f x = Throw e' -> e' = TypeError) ->
  array_map f xs = Throw e -> e = TypeError.
Proof.
  intros Hf. induction xs as [|x r IH]; simpl; intros H; [discriminate|].
  apply bind_Throw in H as [H | [y [_ H]]]; [now apply (Hf x)|].
  apply bind_Throw in H as [H | [ys [_ H]]]; [now apply IH | discriminate].
Qed.

Lemma array_reduce_Throw {A B : Type} (f : B -> A -> result B) (xs : list A)
    (acc : B) (e : js_error) :
  (forall a x e', f a x = Throw e' -> e' = TypeError) ->
  array_reduce f xs acc = Throw e -> e = TypeError.
Proof.
  intros Hf. revert acc. induction xs as [|x r IH]; simpl; intros acc H; [discriminate|].
  apply bind_Throw in H as [H | [a [_ H]]]; [now apply (Hf acc x) | now apply (IH a)].
Qed.

Lemma add_clue_Throw (acc : jsobject jsvalue) (entry : json) (e : js_error) :
  add_clue acc entry = Throw e -> e = TypeError.
Proof.
  unfold add_clue. intros H.
  apply bind_Throw in H as [H | [w [_ H]]]; [now apply get_property_Throw in H|].
  apply bind_Throw in H as [H | [k [_ H]]]; [now apply call_toUpperCase_Throw in H|].
  apply bind_Throw in H as [H | [c [_ H]]]; [now apply get_property_Throw in H|].
  discriminate.
Qed.

Lemma formattedResponse_Throw (parsedResult : json) (e : js_error) :
  formattedResponse parsedResult = Throw e -> e = TypeError.
Proof.
  unfold formattedResponse. intros H.
  apply bind_Throw in H as [H | [th [_ H]]]; [now apply get_property_Throw in H|].
  apply bind_Throw in H as [H | [ws [_ H]]]; [now apply get_property_Throw in H|].
  apply bind_Throw in H as [H | [ws' [_ H]]].
  { destruct ws as [[| | | |items|]|]; cbn [call_map] in H; try congruence.
    apply array_map_Throw in H; [assumption|].
    intros x e'. apply call_toUpperCase_Throw. }
  apply bind_Throw in H as [H | [cl [_ H]]]; [now apply get_property_Throw in H|].
  apply bind_Throw in H as [H | [en [_ H]]]; [now apply Object_entries_Throw in H|].
  discriminate.
Qed.

Lemma entriesResponse_Throw (rawResult : json) (e : js_error) :
  entriesResponse rawResult = Throw e -> e = TypeError.
Proof.
  unfold entriesResponse. intros H.
  apply bind_Throw in H as [H | [th [_ H]]]; [now apply get_property_Throw in H|].
  apply bind_Throw in H as [H | [ws [_ H]]]; [now apply get_property_Throw in H|].
  apply bind_Throw in H as [H | [ws' [_ H]]].
  { destruct ws as [[| | | |items|]|]; cbn [call_map] in H; try congruence.
    apply array_map_Throw in H; [assumption|].
    intros x e'. apply get_property_Throw. }
  apply bind_Throw in H as [H | [ws2 [_ H]]]; [now apply get_property_Throw in H|].
  apply bind_Throw in H as [H | [cl [_ H]]]; [|discriminate].
  destruct ws2 as [[| | | |items|]|]; cbn [call_reduce] in H; try congruence.
  apply array_reduce_Throw in H; [assumption|].
  intros a x e'. apply add_clue_Throw.
Qed.

Lemma Object_entries_Ok (c : json) :
  c <> JNull -> exists entries, Object_entries (Some c) = Ok entries.
Proof. destruct c; intros H; try contradiction; simpl; eauto. Qed.

(** X4. The string-list builder succeeds exactly when the words are an array
    whose elements are all strings and the clues are present and not null;
    otherwise it throws a [TypeError], and it throws nothing else.  The
    theme is not examined. *)
Theorem formattedResponse_succeeds_iff (parsedResult : json) :
  ((exists p, formattedResponse parsedResult = Ok p) <->
   (exists ws, get_property (Some parsedResult) "words" = Ok (Some (JArr (map JStr ws))))
   /\ (exists c, get_property (Some parsedResult) "clues" = Ok (Some c) /\ c <> JNull))
  /\ (forall e, formattedResponse parsedResult = Throw e -> e = TypeError).
Proof.
  split; [|apply formattedResponse_Throw].
  split.
  - intros [p H].
    apply formattedResponse_Ok in H as [ws [es [Hw [He _]]]].
    split; [now exists ws|].
    apply bind_Ok in He as [cl [Hcl He]].
    destruct cl as [c|]; [|discriminate].
    exists c. split; [assumption|]. intros ->. discriminate.
  - intros [[ws Hw] [c [Hc Hne]]].
    destruct (Object_entries_Ok c Hne) as [entries He].
    unfold formattedResponse.
    destruct (get_property (Some parsedResult) "theme") as [th|e] eqn:Hth.
    + cbn [bind]. rewrite Hw. cbn [bind call_map].
      rewrite array_map_toUpperCase_strings. cbn [bind].
      rewrite Hc. cbn [bind]. rewrite He. cbn [bind]. eauto.
    + destruct parsedResult; discriminate.
Qed.

Lemma entries_map_Ok (items : list json) :
  Forall (fun entry => exists s, get_property (Some entry) "word" = Ok (Some (JStr s))) items ->
  exists ws', array_map entry_word items = Ok ws'.
Proof.
  induction 1 as [|x r [s Hs] _ [ws' IH]]; [now exists []|].
  exists (Some (JStr s) :: ws'). cbn [array_map]. unfold entry_word at 1.
  rewrite Hs. cbn [bind]. now rewrite IH.
Qed.

Lemma entry_clue_Ok (entry : json) (w : jsvalue) :
  get_property (Some entry) "word" = Ok w ->
  exists c, get_property (Some entry) "clue" = Ok c.
Proof. destruct entry; simpl; intros H; try discriminate; eauto. Qed.

Lemma entries_reduce_Ok (items : list json) (acc : jsobject jsvalue) :
  Forall (fun entry => exists s, get_property (Some entry) "word" = Ok (Some (JStr s))) items ->
  exists cl, array_reduce add_clue items acc = Ok cl.
Proof.
  intros H. revert acc. induction H as [|x r [s Hs] _ IH]; intros acc; [now exists acc|].
  destruct (entry_clue_Ok x _ Hs) as [c Hc].
  cbn [array_reduce]. unfold add_clue at 1. rewrite Hs. cbn [bind call_toUpperCase].
  rewrite Hc. cbn [bind]. apply IH.
Qed.

Lemma entries_map_words (items : list json) (ws' : list jsvalue) (cl acc : jsobject jsvalue) :
  array_map entry_word items = Ok ws' ->
  array_reduce add_clue items acc = Ok cl ->
  Forall (fun entry => exists s, get_property (Some entry) "word" = Ok (Some (JStr s))) items.
Proof.
  revert ws' acc. induction items as [|x r IH]; intros ws' acc Hm Hr; [constructor|].
  cbn [array_map] in Hm. cbn [array_reduce] in Hr.
  apply bind_Ok in Hm as [y [Hy Hm]]. apply bind_Ok in Hm as [ys [Hys _]].
  apply bind_Ok in Hr as [acc' [Hacc Hr]].
  destruct (add_clue_Ok _ _ _ _ Hy Hacc) as [s [c [-> _]]].
  constructor; [now exists s | now apply (IH ys acc')].
Qed.

(** X5. The entry-list builder succeeds exactly when the words are an array
    whose every element has a string as its [word]; otherwise it throws a
    [TypeError], and it throws nothing else.  A missing [clue] or theme is
    no error. *)
Theorem entriesResponse_succeeds_iff (rawResult : json) :
  ((exists p, entriesResponse rawResult = Ok p) <->
   (exists items,
       get_property (Some rawResult) "words" = Ok (Some (JArr items))
       /\ Forall (fun entry =>
                    exists s, get_property (Some entry) "word" = Ok (Some (JStr s)))
                 items))
  /\ (forall e, entriesResponse rawResult = Throw e -> e = TypeError).
Proof.
  split; [|apply entriesResponse_Throw].
  split.
  - intros [p H]. unfold entriesResponse in H.
    apply bind_Ok in H as [th [_ H]]. apply bind_Ok in H as [wv [Hwv H]].
    apply bind_Ok in H as [ws' [Hws H]]. rewrite Hwv in H. cbn [bind] in H.
    apply bind_Ok in H as [cl [Hcl _]].
    destruct wv as [[| | | |items|]|]; try discriminate.
    exists items. split; [assumption|].
    now apply (entries_map_words items ws' cl []).
  - intros [items [Hw Hall]].
    destruct (entries_map_Ok items Hall) as [ws' Hm].
    destruct (entries_reduce_Ok items [] Hall) as [cl Hr].
    unfold entriesResponse.
    destruct (get_property (Some rawResult) "theme") as [th|e] eqn:Hth.
    + cbn [bind]. rewrite Hw. cbn [bind call_map call_reduce].
      rewrite Hm. cbn [bind]. rewrite Hr. cbn [bind]. eauto.
    + destruct rawResult; discriminate.
Qed.

(** ** Looking up a clue *)

Lemma obj_get_absent {V : Type} (k : string) (o : jsobject V) :
  ~ In k (obj_keys o) -> obj_get k o = None.
Proof.
  induction o as [|[k' v'] r IH]; simpl; intros Hnot; [reflexivity|].
  destruct (String.eqb_spec k k') as [->|Hne].
  - exfalso. apply Hnot. now left.
  - apply IH. intros Hin. apply Hnot. now right.
Qed.

Lemma fold_obj_set_get_other {V : Type} (es : list (string * V)) (acc : jsobject V)
    (k : string) :
  Forall (fun e => fst e <> k) es ->
  obj_get k (fold_left (fun a e => obj_set (fst e) (snd e) a) es acc) = obj_get k acc.
Proof.
  intros H. revert acc. induction H as [|e r He _ IH]; intros acc; [reflexivity|].
  simpl. rewrite IH. apply obj_get_set_other. congruence.
Qed.

Lemma Object_fromEntries_get {V : Type} (es1 es2 : list (string * V)) (k : string) (v : V) :
  Forall (fun e => fst e <> k) es2 ->
  obj_get k (Object_fromEntries (es1 ++ (k, v) :: es2)) = Some v.
Proof.
  intros H. unfold Object_fromEntries. rewrite fold_left_app. simpl.
  rewrite fold_obj_set_get_other by assumption. apply obj_get_set_same.
Qed.

(** X6. In the string-list shape, when several clue keys have the same
    uppercased form, the clue of the last of them is the one that is kept:
    the clue found under the uppercased key is the clue of the entry after
    which no key has that uppercased form. *)
Theorem later_clue_key_overrides (ms : jsobject json) (ws : list string)
    (es1 es2 : jsobject json) (k : string) (v : json) :
  obj_get "words" ms = Some (JArr (map JStr ws)) ->
  obj_get "clues" ms = Some (JObj (es1 ++ (k, v) :: es2)) ->
  Forall (fun e => toUpperCase (fst e) <> toUpperCase k) es2 ->
  exists p, formattedResponse (JObj ms) = Ok p
            /\ obj_get (toUpperCase k) (clues p) = Some (Some v).
Proof.
  intros Hw Hc Hlater.
  rewrite (formattedResponse_unchecked ms ws _ Hw Hc).
  eexists. split; [reflexivity|]. cbn [clues].
  rewrite map_app. cbn [map fst snd].
  apply Object_fromEntries_get.
  apply Forall_map. cbn [fst]. exact Hlater.
Qed.

Lemma later_clue_key_overrides_witness :
  exists p,
    formattedResponse
      (JObj [("words", JArr (map JStr ["cat"]));
             ("clues", JObj ([("cat", JStr "It purrs")]
                             ++ ("Cat", JStr "It meows") :: [("dog", JStr "It barks")]))])
    = Ok p
    /\ obj_get (toUpperCase "Cat") (clues p) = Some (Some (JStr "It meows")).
Proof.
  apply (later_clue_key_overrides _ ["cat"] [("cat", JStr "It purrs")]
           [("dog", JStr "It barks")] "Cat" (JStr "It meows")); try reflexivity.
  constructor; [vm_compute; discriminate | constructor].
Defined.

Lemma array_reduce_app {A B : Type} (f : B -> A -> result B) (xs ys : list A) (acc : B) :
  array_reduce f (xs ++ ys) acc = (a <- array_reduce f xs acc ;; array_reduce f ys a).
Proof.
  revert acc. induction xs as [|x r IH]; intros acc; [reflexivity|].
  cbn [app array_reduce]. destruct (f acc x) as [a|e]; [|reflexivity].
  cbn [bind]. apply IH.
Qed.

Lemma reduce_get_other (items : list json) (acc cl : jsobject jsvalue) (k : string) :
  array_reduce add_clue items acc = Ok cl ->
  Forall (fun entry =>
            forall s, get_property (Some entry) "word" = Ok (Some (JStr s)) ->
                      toUpperCase s <> k) items ->
  obj_get k cl = obj_get k acc.
Proof.
  intros Hr Hall. revert acc Hr.
  induction Hall as [|x r Hx _ IH]; intros acc Hr.
  - cbn [array_reduce] in Hr. now injection Hr as <-.
  - cbn [array_reduce] in Hr. apply bind_Ok in Hr as [acc' [Hacc Hr]].
    rewrite (IH _ Hr).
    destruct (get_property (Some x) "word") as [y|e] eqn:Hy.
    + destruct (add_clue_Ok _ _ _ _ Hy Hacc) as [s [c [-> ->]]].
      apply obj_get_set_other. intros E. apply (Hx s); [reflexivity | now symmetry].
    + unfold add_clue in Hacc. rewrite Hy in Hacc. discriminate.
Qed.

(** X7. In the entry-list shape, when several entries have words of the
    same uppercased form, the clue of the last of them is the one that is
    kept. *)
Theorem later_entry_overrides (ms : jsobject json) (items1 items2 : list json)
    (entry : json) (s : string) (c : jsvalue) (p : CachedResponse) :
  obj_get "words" ms = Some (JArr (items1 ++ entry :: items2)) ->
  get_property (Some entry) "word" = Ok (Some (JStr s)) ->
  get_property (Some entry) "clue" = Ok c ->
  Forall (fun later =>
            forall s', get_property (Some later) "word" = Ok (Some (JStr s')) ->
                       toUpperCase s' <> toUpperCase s) items2 ->
  entriesResponse (JObj ms) = Ok p ->
  obj_get (toUpperCase s) (clues p) = Some c.
Proof.
  intros Hw Hs Hc Hlater H. unfold entriesResponse in H.
  apply bind_Ok in H as [th [_ H]]. cbn [get_property] in H. rewrite Hw in H.
  cbn [bind call_map call_reduce] in H.
  apply bind_Ok in H as [ws' [_ H]]. apply bind_Ok in H as [cl [Hcl H]].
  injection H as <-. cbn [clues].
  rewrite array_reduce_app in Hcl. apply bind_Ok in Hcl as [a [_ Hcl]].
  cbn [array_reduce] in Hcl. apply bind_Ok in Hcl as [a' [Ha' Hcl]].
  rewrite (reduce_get_other _ _ _ _ Hcl Hlater).
  unfold add_clue in Ha'. rewrite Hs in Ha'. cbn [bind call_toUpperCase] in Ha'.
  rewrite Hc in Ha'. cbn [bind] in Ha'. injection Ha' as <-.
  apply obj_get_set_same.
Qed.

Lemma later_entry_overrides_witness :
  obj_get (toUpperCase "Orbit")
    [("ORBIT", Some (JStr "Closed trajectory"))]
  = Some (Some (JStr "Closed trajectory")).
Proof.
  apply (later_entry_overrides
           [("theme", JStr "Space"); ("words", JArr ([twice_entry] ++ twice_entry_again :: []))]
           [twice_entry] [] twice_entry_again "Orbit" (Some (JStr "Closed trajectory"))
           {| theme := Some (JStr "Space");
              words := [Some (JStr "orbit"); Some (JStr "Orbit")];
              clues := [("ORBIT", Some (JStr "Closed trajectory"))] |});
    try reflexivity.
  constructor.
Defined.

Lemma array_map_Forall2 {A B : Type} (f : A -> result B) (xs : list A) (ys : list B) :
  array_map f xs = Ok ys -> Forall2 (fun x y => f x = Ok y) xs ys.
Proof.
  revert ys. induction xs as [|x r IH]; intros ys H.
  - cbn [array_map] in H. injection H as <-. constructor.
  - cbn [array_map] in H. apply bind_Ok in H as [y [Hy H]].
    apply bind_Ok in H as [ys' [Hys H]]. injection H as <-.
    constructor; [assumption | now apply IH].
Qed.

(** X8. In the entry-list shape the returned words are the [word] fields of
    the entries as they are given, in order, without uppercasing, while the
    clue keys are uppercased: a returned word that is not in upper case is
    not a key of the returned clues. *)
Theorem entriesResponse_words_verbatim (rawResult : json) (p : CachedResponse) :
  entriesResponse rawResult = Ok p ->
  (exists items,
      get_property (Some rawResult) "words" = Ok (Some (JArr items))
      /\ Forall2 (fun entry w => get_property (Some entry) "word" = Ok w) items (words p))
  /\ (forall w, In (Some (JStr w)) (words p) -> toUpperCase w <> w ->
                obj_get w (clues p) = None).
Proof.
  intros H. split.
  - unfold entriesResponse in H.
    apply bind_Ok in H as [th [_ H]]. apply bind_Ok in H as [wv [Hwv H]].
    apply bind_Ok in H as [ws' [Hws H]]. apply bind_Ok in H as [ws2 [_ H]].
    apply bind_Ok in H as [cl [_ H]]. injection H as <-. cbn [words].
    destruct wv as [[| | | |items|]|]; try discriminate.
    exists items. split; [assumption|].
    cbn [call_map] in Hws. now apply array_map_Forall2 in Hws.
  - intros w _ Hcase. apply entriesResponse_Ok in H as [_ [_ Hkeys]].
    apply obj_get_absent. intros Hin.
    apply Hkeys in Hin as [w' [_ E]]. apply Hcase.
    rewrite E. apply toUpperCase_idempotent.
Qed.

Lemma entriesResponse_words_verbatim_witness :
  obj_get "orbit" (clues entries_puzzle) = None.
Proof.
  apply (proj2 (entriesResponse_words_verbatim
                  (JObj [("theme", JStr "Space");
                         ("words",
                          JArr [JObj [("word", JStr "orbit"); ("clue", JStr "Path around a star")];
                                JObj [("word", JStr "comet"); ("clue", JStr "Icy body with a tail")]])])
                  entries_puzzle eq_refl)).
  - simpl. now left.
  - vm_compute. discriminate.
Defined.

(** ** The handlers: responses, calls and the memory tier *)

Section FurtherHandlerProperties.

Variable JSON_parse : string -> option json.
Variable toDateString : Date -> string.
Variable toISOString : Date -> string.

Lemma memory_hit_other_day (st : module_state) (now d : Date) :
  lastFetched st = Some d -> toDateString now <> toDateString d ->
  memory_hit toDateString st now = None.
Proof.
  intros Hd Hne. unfold memory_hit. rewrite Hd.
  destruct (cachedResponse st); [|reflexivity].
  now apply String.eqb_neq in Hne as ->.
Qed.

Lemma memory_hit_after_store (r : CachedResponse) (now now' : Date) :
  toDateString now' = toDateString now ->
  memory_hit toDateString {| cachedResponse := Some r; lastFetched := Some now |} now'
  = Some r.
Proof. intros E. unfold memory_hit. simpl. now rewrite E, String.eqb_refl. Qed.

Lemma memory_hit_fields (st : module_state) (now : Date) (c : CachedResponse) :
  memory_hit toDateString st now = Some c ->
  cachedResponse st = Some c /\ lastFetched st <> None.
Proof.
  unfold memory_hit.
  destruct (cachedResponse st) as [c'|]; [|discriminate].
  destruct (lastFetched st) as [d|]; [|discriminate].
  destruct (String.eqb _ _); [|discriminate].
  intros H. injection H as ->. split; [reflexivity | discriminate].
Qed.

(** X10. Whenever a handler with a memory tier answers with a puzzle, that
    puzzle is the one held in [cachedResponse] after the call, and
    [lastFetched] is set. *)
Theorem returned_puzzle_is_cached (st : module_state) (method : string) (now : Date)
    (completion : result (option string)) (p : CachedResponse) :
  (body (snd (fst (handler_sanitized JSON_parse toDateString st method now completion)))
   = PuzzleBody p ->
   let st' := fst (fst (handler_sanitized JSON_parse toDateString st method now completion)) in
   cachedResponse st' = Some p /\ lastFetched st' <> None)
  /\ (body (snd (fst (handler_entries JSON_parse toDateString st now completion)))
      = PuzzleBody p ->
      let st' := fst (fst (handler_entries JSON_parse toDateString st now completion)) in
      cachedResponse st' = Some p /\ lastFetched st' <> None)
  /\ (body (snd (fst (handler_entries_cors JSON_parse toDateString st method now completion)))
      = PuzzleBody p ->
      let st' := fst (fst (handler_entries_cors JSON_parse toDateString st method now completion)) in
      cachedResponse st' = Some p /\ lastFetched st' <> None).
Proof.
  split; [|split].
  - unfold handler_sanitized.
    destruct (String.eqb method "OPTIONS"); [discriminate|].
    destruct (memory_hit toDateString st now) as [c|] eqn:Hh.
    + simpl. intros H. injection H as ->. now apply (memory_hit_fields st now).
    + destruct (generate_sanitized JSON_parse completion); [|discriminate].
      simpl. intros H. injection H as ->. split; [reflexivity | discriminate].
  - unfold handler_entries.
    destruct (memory_hit toDateString st now) as [c|] eqn:Hh.
    + simpl. intros H. injection H as ->. now apply (memory_hit_fields st now).
    + destruct (generate_entries JSON_parse completion); [|discriminate].
      simpl. intros H. injection H as ->. split; [reflexivity | discriminate].
  - unfold handler_entries_cors.
    destruct (String.eqb method "OPTIONS"); [discriminate|].
    destruct (memory_hit toDateString st now) as [c|] eqn:Hh.
    + simpl. intros H. injection H as ->. now apply (memory_hit_fields st now).
    + destruct (generate_entries JSON_parse completion); [|discriminate].
      simpl. intros H. injection H as ->. split; [reflexivity | discriminate].
Qed.

(** X11. After a miss whose generation succeeds, a following request on the
    same day is answered from memory with the same puzzle, without any
    external call and whatever the generation service would answer. *)
Theorem miss_then_hit (st : module_state) (method : string) (now now' : Date)
    (completion completion' : result (option string)) (r : CachedResponse) :
  method <> "OPTIONS" ->
  memory_hit toDateString st now = None ->
  toDateString now' = toDateString now ->
  (generate_sanitized JSON_parse completion = Ok r ->
   let first := handler_sanitized JSON_parse toDateString st method now completion in
   body (snd (fst first)) = PuzzleBody r
   /\ handler_sanitized JSON_parse toDateString (fst (fst first)) method now' completion'
      = (fst (fst first), mkResponse cors_headers 200 (PuzzleBody r), []))
  /\ (generate_entries JSON_parse completion = Ok r ->
      let first := handler_entries JSON_parse toDateString st now completion in
      body (snd (fst first)) = PuzzleBody r
      /\ handler_entries JSON_parse toDateString (fst (fst first)) now' completion'
         = (fst (fst first), mkResponse [] 200 (PuzzleBody r), []))
  /\ (generate_entries JSON_parse completion = Ok r ->
      let first := handler_entries_cors JSON_parse toDateString st method now completion in
      body (snd (fst first)) = PuzzleBody r
      /\ handler_entries_cors JSON_parse toDateString (fst (fst first)) method now' completion'
         = (fst (fst first), mkResponse cors_headers 200 (PuzzleBody r), [])).
Proof.
  intros Hm Hmiss E. split; [|split]; intros Hg; cbv zeta.
  - assert (E1 : handler_sanitized JSON_parse toDateString st method now completion
                 = ({| cachedResponse := Some r; lastFetched := Some now |},
                    mkResponse cors_headers 200 (PuzzleBody r), [CallGeneration])).
    { unfold handler_sanitized. now rewrite (not_options _ Hm), Hmiss, Hg. }
    rewrite E1. cbn [fst snd body]. split; [reflexivity|].
    unfold handler_sanitized.
    now rewrite (not_options _ Hm), (memory_hit_after_store r now now' E).
  - assert (E1 : handler_entries JSON_parse toDateString st now completion
                 = ({| cachedResponse := Some r; lastFetched := Some now |},
                    mkResponse [] 200 (PuzzleBody r), [CallGeneration])).
    { unfold handler_entries. now rewrite Hmiss, Hg. }
    rewrite E1. cbn [fst snd body]. split; [reflexivity|].
    unfold handler_entries.
    now rewrite (memory_hit_after_store r now now' E).
  - assert (E1 : handler_entries_cors JSON_parse toDateString st method now completion
                 = ({| cachedResponse := Some r; lastFetched := Some now |},
                    mkResponse cors_headers 200 (PuzzleBody r), [CallGeneration])).
    { unfold handler_entries_cors. now rewrite (not_options _ Hm), Hmiss, Hg. }
    rewrite E1. cbn [fst snd body]. split; [reflexivity|].
    unfold handler_entries_cors.
    now rewrite (not_options _ Hm), (memory_hit_after_store r now now' E).
Qed.

(** X12. Day rollover: a cached record whose [lastFetched] falls on another
    day than [now] is not served; the handler makes exactly one generation
    call and, when it succeeds, replaces the record and sets [lastFetched]
    to [now]. *)
Theorem rollover_regenerates (st : module_state) (method : string) (now d : Date)
    (completion : result (option string)) :
  lastFetched st = Some d ->
  toDateString now <> toDateString d ->
  method <> "OPTIONS" ->
  let a := handler_sanitized JSON_parse toDateString st method now completion in
  let b := handler_entries JSON_parse toDateString st now completion in
  let c := handler_entries_cors JSON_parse toDateString st method now completion in
  snd a = [CallGeneration] /\ snd b = [CallGeneration] /\ snd c = [CallGeneration]
  /\ (forall r, generate_sanitized JSON_parse completion = Ok r ->
                fst a = ({| cachedResponse := Some r; lastFetched := Some now |},
                         mkResponse cors_headers 200 (PuzzleBody r)))
  /\ (forall r, generate_entries JSON_parse completion = Ok r ->
                fst b = ({| cachedResponse := Some r; lastFetched := Some now |},
                         mkResponse [] 200 (PuzzleBody r))
                /\ fst c = ({| cachedResponse := Some r; lastFetched := Some now |},
                            mkResponse cors_headers 200 (PuzzleBody r))).
Proof.
  intros Hd Hne Hm a b c. subst a b c.
  unfold handler_sanitized, handler_entries, handler_entries_cors.
  rewrite (not_options _ Hm), (memory_hit_other_day st now d Hd Hne).
  split; [|split; [|split; [|split]]].
  - now destruct (generate_sanitized JSON_parse completion).
  - now destruct (generate_entries JSON_parse completion).
  - now destruct (generate_entries JSON_parse completion).
  - intros r Hg. now rewrite Hg.
  - intros r Hg. now rewrite Hg.
Qed.

(** X13. A handler with a memory tier makes at most one external call in an
    execution, and that call is the generation call: it never calls a
    store. *)
Theorem memory_handlers_call_generation_only (st : module_state) (method : string)
    (now : Date) (completion : result (option string)) :
  let a := snd (handler_sanitized JSON_parse toDateString st method now completion) in
  let b := snd (handler_entries JSON_parse toDateString st now completion) in
  let c := snd (handler_entries_cors JSON_parse toDateString st method now completion) in
  (a = [] \/ a = [CallGeneration])
  /\ (b = [] \/ b = [CallGeneration])
  /\ (c = [] \/ c = [CallGeneration]).
Proof.
  intros a b c. subst a b c.
  unfold handler_sanitized, handler_entries, handler_entries_cors.
  destruct (String.eqb method "OPTIONS");
    destruct (memory_hit toDateString st now);
    destruct (generate_sanitized JSON_parse completion);
    destruct (generate_entries JSON_parse completion); simpl; tauto.
Qed.

(** X14. part_000 behaves as the third file of handler.ts on every request
    that is not a preflight: the same state afterwards, the same calls, the
    same status, and the same body when the status is 200.  (They differ by
    the headers and by the error body.) *)
Theorem entries_variants_agree (st : module_state) (method : string) (now : Date)
    (completion : result (option string)) :
  method <> "OPTIONS" ->
  let a := handler_entries JSON_parse toDateString st now completion in
  let b := handler_entries_cors JSON_parse toDateString st method now completion in
  fst (fst a) = fst (fst b)
  /\ snd a = snd b
  /\ status (snd (fst a)) = status (snd (fst b))
  /\ (status (snd (fst a)) = 200%Z -> body (snd (fst a)) = body (snd (fst b))).
Proof.
  intros Hm a b. subst a b. unfold handler_entries, handler_entries_cors.
  rewrite (not_options _ Hm).
  destruct (memory_hit toDateString st now); [repeat split|].
  destruct (generate_entries JSON_parse completion); repeat split.
  simpl. discriminate.
Qed.

(** The first file is its two halves around the awaited call. *)
Lemma handler_sanitized_split (st : module_state) (method : string) (now : Date)
    (completion : result (option string)) :
  handler_sanitized JSON_parse toDateString st method now completion
  = match handler_sanitized_start toDateString st method now with
    | Some resp => (st, resp, [])
    | None =>
        (handler_sanitized_resume JSON_parse st now completion, [CallGeneration])
    end.
Proof.
  unfold handler_sanitized, handler_sanitized_start, handler_sanitized_resume.
  destruct (String.eqb method "OPTIONS"); [reflexivity|].
  destruct (memory_hit toDateString st now); [reflexivity|].
  now destruct (generate_sanitized JSON_parse completion).
Qed.

(** X15. Two requests that both find no usable record before either
    generation call settles each make a generation call; each caller
    receives the puzzle of its own call, and the memory tier ends with the
    record and the date of the request that settles last. *)
Theorem concurrent_misses_generate_twice (st : module_state) (m1 m2 : string)
    (now1 now2 : Date) (c1 c2 : result (option string)) (r1 r2 : CachedResponse) :
  handler_sanitized_start toDateString st m1 now1 = None ->
  handler_sanitized_start toDateString st m2 now2 = None ->
  generate_sanitized JSON_parse c1 = Ok r1 ->
  generate_sanitized JSON_parse c2 = Ok r2 ->
  let after1 := handler_sanitized_resume JSON_parse st now1 c1 in
  let after2 := handler_sanitized_resume JSON_parse (fst after1) now2 c2 in
  snd (handler_sanitized JSON_parse toDateString st m1 now1 c1) = [CallGeneration]
  /\ snd (handler_sanitized JSON_parse toDateString st m2 now2 c2) = [CallGeneration]
  /\ body (snd after1) = PuzzleBody r1
  /\ body (snd after2) = PuzzleBody r2
  /\ consistent (fst after1)
  /\ fst after2 = {| cachedResponse := Some r2; lastFetched := Some now2 |}.
Proof.
  intros Hs1 Hs2 H1 H2 after1 after2. subst after1 after2.
  rewrite !handler_sanitized_split, Hs1, Hs2.
  unfold handler_sanitized_resume. rewrite H1. cbn [fst snd]. rewrite H2.
  cbn [fst snd body].
  split; [reflexivity|]. split; [reflexivity|].
  split; [reflexivity|]. split; [reflexivity|].
  split; [|reflexivity]. unfold consistent. simpl. split; discriminate.
Qed.

(** ** The blob variant: calls and failures *)

(** X16. The calls of one execution of the blob variant are, in this order:
    nothing (preflight); the listing alone (it failed); the listing and one
    fetch (a record of the day exists); the listing and the generation call
    (generation or normalization failed); or the listing, the generation
    call and one write of the generated record at the path of the day.  So
    it never both fetches and generates, and it writes only what it has
    just generated. *)
Theorem blob_variant_call_sequences (sv : blob_services) (method : string) (now : Date) :
  let t := snd (handler_blob JSON_parse toISOString sv method now) in
  t = []
  \/ t = [CallList (prefix_of toISOString now)]
  \/ (exists u, t = [CallList (prefix_of toISOString now); CallFetch u])
  \/ t = [CallList (prefix_of toISOString now); CallGeneration]
  \/ (exists r, generate_sanitized JSON_parse (completion_of sv) = Ok r
                /\ t = [CallList (prefix_of toISOString now); CallGeneration;
                        CallPut (puzzlePath_of toISOString now) r]).
Proof.
  intros t. subst t. unfold handler_blob.
  destruct (String.eqb method "OPTIONS"); [now left|].
  destruct (list_blobs sv (prefix_of toISOString now)) as [blobs|e];
    [|right; now left].
  destruct (find _ blobs) as [b|].
  - right. right. left. exists (url b).
    destruct (fetch_blob sv (url b)) as [r|e]; [|reflexivity].
    destruct (negb (ok r)); [reflexivity|].
    now destruct (JSON_parse_or_throw JSON_parse (fetch_text r)).
  - destruct (generate_sanitized JSON_parse (completion_of sv)) as [r|e] eqn:Hg.
    + right. right. right. right. exists r. split; [reflexivity|].
      now destruct (put_blob sv (puzzlePath_of toISOString now) r).
    + right. right. right. now left.
Qed.

(** X17. When the record of the day exists but cannot be read (the fetch
    rejects, answers with a status that is not ok, or its body is no JSON),
    the handler answers with status 500 after the listing and the fetch; it
    does not fall back to generating a puzzle. *)
Theorem unreadable_record_is_an_error (sv : blob_services) (method : string) (now : Date)
    (blobs : list blob) (existingPuzzle : blob) :
  method <> "OPTIONS" ->
  list_blobs sv (prefix_of toISOString now) = Ok blobs ->
  find (fun b => String.eqb (pathname b) (puzzlePath_of toISOString now)) blobs
  = Some existingPuzzle ->
  (exists e, fetch_blob sv (url existingPuzzle) = Throw e)
  \/ (exists r, fetch_blob sv (url existingPuzzle) = Ok r
                /\ (ok r = false \/ JSON_parse (fetch_text r) = None)) ->
  status (fst (handler_blob JSON_parse toISOString sv method now)) = 500%Z
  /\ snd (handler_blob JSON_parse toISOString sv method now)
     = [CallList (prefix_of toISOString now); CallFetch (url existingPuzzle)].
Proof.
  intros Hm Hl Hf Hbad. unfold handler_blob, JSON_parse_or_throw.
  rewrite (not_options _ Hm), Hl, Hf.
  destruct Hbad as [[e He] | [r [Hr Hbad]]].
  - rewrite He. now split.
  - rewrite Hr. destruct (ok r); [|now split].
    destruct Hbad as [Hok | Hp]; [discriminate|].
    cbn [negb]. rewrite Hp. now split.
Qed.

(** X18. On a miss where the generation, the normalization and the write
    succeed, the handler answers with status 200 and the generated record,
    and the record written is the record returned, at the path of the day,
    which lies under the prefix that the listing asks for. *)
Theorem stored_record_is_returned (sv : blob_services) (method : string) (now : Date)
    (blobs : list blob) (r : CachedResponse) (written : blob) :
  method <> "OPTIONS" ->
  list_blobs sv (prefix_of toISOString now) = Ok blobs ->
  find (fun b => String.eqb (pathname b) (puzzlePath_of toISOString now)) blobs = None ->
  generate_sanitized JSON_parse (completion_of sv) = Ok r ->
  put_blob sv (puzzlePath_of toISOString now) r = Ok written ->
  handler_blob JSON_parse toISOString sv method now
  = (mkResponse cors_headers 200 (PuzzleBody r),
     [CallList (prefix_of toISOString now); CallGeneration;
      CallPut (puzzlePath_of toISOString now) r])
  /\ prefix (prefix_of toISOString now) (puzzlePath_of toISOString now) = true.
Proof.
  intros Hm Hl Hf Hg Hp. split.
  - unfold handler_blob. now rewrite (not_options _ Hm), Hl, Hf, Hg, Hp.
  - unfold prefix_of, puzzlePath_of.
    change ("puzzle/" ++ today_of toISOString now ++ "/puzzle.json")
      with ("puzzle/" ++ today_of toISOString now ++ "/" ++ "puzzle.json").
    rewrite <- (append_assoc (today_of toISOString now) "/" "puzzle.json").
    rewrite <- (append_assoc "puzzle/" (today_of toISOString now ++ "/") "puzzle.json").
    apply prefix_app_self.
Qed.

End FurtherHandlerProperties.

(** ** Further scenarios *)

Lemma miss_then_hit_witness :
  handler_sanitized JsonText.parse day_number_string
    (fst (fst (handler_sanitized JsonText.parse day_number_string initial_state "GET"
                 example_now (Ok (Some space_text)))))
    "GET" (example_now + 3600000)%Z (Throw (Error "the generation service is down"))
  = (fst (fst (handler_sanitized JsonText.parse day_number_string initial_state "GET"
                 example_now (Ok (Some space_text)))),
     mkResponse cors_headers 200 (PuzzleBody space_puzzle), []).
Proof.
  assert (Hm : "GET" <> "OPTIONS") by discriminate.
  assert (Hd : day_number_string (example_now + 3600000)%Z = day_number_string example_now)
    by (vm_compute; reflexivity).
  assert (Hg : generate_sanitized JsonText.parse (Ok (Some space_text)) = Ok space_puzzle)
    by (vm_compute; reflexivity).
  exact (proj2 (proj1 (miss_then_hit JsonText.parse day_number_string initial_state "GET"
                         example_now (example_now + 3600000)%Z (Ok (Some space_text))
                         (Throw (Error "the generation service is down")) space_puzzle
                         Hm eq_refl Hd) Hg)).
Defined.

Lemma rollover_regenerates_witness :
  snd (handler_sanitized JsonText.parse day_number_string cached_state "GET"
         (example_now + 86400000)%Z (Ok (Some duplicate_text)))
  = [CallGeneration]
  /\ fst (handler_sanitized JsonText.parse day_number_string cached_state "GET"
            (example_now + 86400000)%Z (Ok (Some duplicate_text)))
     = ({| cachedResponse := Some duplicate_puzzle;
           lastFetched := Some (example_now + 86400000)%Z |},
        mkResponse cors_headers 200 (PuzzleBody duplicate_puzzle)).
Proof.
  assert (Hm : "GET" <> "OPTIONS") by discriminate.
  assert (Hd : day_number_string (example_now + 86400000)%Z <> day_number_string example_now)
    by (vm_compute; discriminate).
  assert (Hg : generate_sanitized JsonText.parse (Ok (Some duplicate_text))
               = Ok duplicate_puzzle) by (vm_compute; reflexivity).
  pose proof (rollover_regenerates JsonText.parse day_number_string cached_state "GET"
                (example_now + 86400000)%Z example_now (Ok (Some duplicate_text))
                eq_refl Hd Hm) as H.
  cbv zeta in H.
  split; [exact (proj1 H) | exact (proj1 (proj2 (proj2 (proj2 H))) duplicate_puzzle Hg)].
Defined.

Lemma entries_variants_agree_witness :
  fst (fst (handler_entries JsonText.parse day_number_string initial_state example_now
              (Ok (Some entries_text))))
  = fst (fst (handler_entries_cors JsonText.parse day_number_string initial_state "GET"
                example_now (Ok (Some entries_text)))).
Proof.
  assert (Hm : "GET" <> "OPTIONS") by discriminate.
  exact (proj1 (entries_variants_agree JsonText.parse day_number_string initial_state "GET"
                  example_now (Ok (Some entries_text)) Hm)).
Defined.

Lemma concurrent_misses_generate_twice_witness :
  fst (handler_sanitized_resume JsonText.parse
         (fst (handler_sanitized_resume JsonText.parse initial_state example_now
                 (Ok (Some space_text))))
         (example_now + 1000)%Z (Ok (Some duplicate_text)))
  = {| cachedResponse := Some duplicate_puzzle;
       lastFetched := Some (example_now + 1000)%Z |}.
Proof.
  assert (H1 : generate_sanitized JsonText.parse (Ok (Some space_text)) = Ok space_puzzle)
    by (vm_compute; reflexivity).
  assert (H2 : generate_sanitized JsonText.parse (Ok (Some duplicate_text))
               = Ok duplicate_puzzle) by (vm_compute; reflexivity).
  pose proof (concurrent_misses_generate_twice JsonText.parse day_number_string
                initial_state "GET" "GET" example_now (example_now + 1000)%Z
                (Ok (Some space_text)) (Ok (Some duplicate_text))
                space_puzzle duplicate_puzzle eq_refl eq_refl H1 H2) as H.
  cbv zeta in H.
  exact (proj2 (proj2 (proj2 (proj2 (proj2 H))))).
Defined.

Lemma unreadable_record_is_an_error_witness :
  status (fst (handler_blob JsonText.parse day_number_string unreadable_services "GET"
                 example_now)) = 500%Z
  /\ snd (handler_blob JsonText.parse day_number_string unreadable_services "GET"
            example_now)
     = [CallList (prefix_of day_number_string example_now); CallFetch (url stored_blob)].
Proof.
  apply (unreadable_record_is_an_error JsonText.parse day_number_string
           unreadable_services "GET" example_now [stored_blob] stored_blob).
  - discriminate.
  - reflexivity.
  - vm_compute. reflexivity.
  - right. exists {| ok := false; fetch_status := 503; fetch_text := "" |}.
    split; [reflexivity | now left].
Defined.

Lemma stored_record_is_returned_witness :
  handler_blob JsonText.parse day_number_string empty_services "GET" example_now
  = (mkResponse cors_headers 200 (PuzzleBody space_puzzle),
     [CallList (prefix_of day_number_string example_now); CallGeneration;
      CallPut (puzzlePath_of day_number_string example_now) space_puzzle])
  /\ prefix (prefix_of day_number_string example_now)
       (puzzlePath_of day_number_string example_now) = true.
Proof.
  apply (stored_record_is_returned JsonText.parse day_number_string empty_services
           "GET" example_now [] space_puzzle stored_blob).
  - discriminate.
  - reflexivity.
  - reflexivity.
  - vm_compute. reflexivity.
  - reflexivity.
Defined.
